(** * Cluster statistics aggregation (cluster/gateway/stat.go)

    A shallow embedding of the gateway's statistics aggregation: member
    selection, the request validation of [unpackReqStat], the numeric
    reducers, the response combiner [aggregateStatResponses] and the two
    request handlers, followed by the properties established about them. *)

From Stdlib Require Import ZArith NArith String Ascii Strings.Byte List Bool Lia.
From Stdlib Require Import Sorting.Sorted Sorting.Permutation.
From Stdlib Require Import Floats.SpecFloat.
From stdpp Require Import gmap strings list fin_maps.

#[local] Set Warnings "-register-all".
Local Open Scope string_scope.

(** ** Error kinds *)

(** The values of [ClusterErrorType] that stat.go refers to. *)
Inductive ClusterErrorType :=
| NoneError
| WrongMessageFormatError
| InternalServerError
| TimeoutError
| IssueMemberGoneError
| PipelineStatNotFoundError
| RetrievePipelineStatValueError
| RetrievePipelineStatDescError
| RetrievePluginStatValueError
| RetrievePluginStatDescError
| RetrieveTaskStatValueError
| RetrieveTaskStatDescError.

Record ClusterError := {
  Type_ : ClusterErrorType;
  Message : string
}.

Definition newClusterError (msg : string) (typ : ClusterErrorType) : ClusterError :=
  {| Type_ := typ; Message := msg |}.

(** A Go [error] value is kept as the text of its [Error()]. *)
Definition error := string.

(** ** Queries *)

Record FilterPipelineIndicatorNames := {
  PipelineNames_PipelineName : string
}.

Record FilterPipelineIndicatorValue := {
  PipelineValue_PipelineName : string;
  PipelineValue_IndicatorName : string
}.

Record FilterPipelineIndicatorDesc := {
  PipelineDesc_PipelineName : string;
  PipelineDesc_IndicatorName : string
}.

Record FilterPluginIndicatorNames := {
  PluginNames_PipelineName : string;
  PluginNames_PluginName : string
}.

Record FilterPluginIndicatorValue := {
  PluginValue_PipelineName : string;
  PluginValue_PluginName : string;
  PluginValue_IndicatorName : string
}.

Record FilterPluginIndicatorDesc := {
  PluginDesc_PipelineName : string;
  PluginDesc_PluginName : string;
  PluginDesc_IndicatorName : string
}.

Record FilterTaskIndicatorNames := {
  TaskNames_PipelineName : string
}.

Record FilterTaskIndicatorValue := {
  TaskValue_PipelineName : string;
  TaskValue_IndicatorName : string
}.

Record FilterTaskIndicatorDesc := {
  TaskDesc_PipelineName : string;
  TaskDesc_IndicatorName : string
}.

(** [ReqStat]: nine nullable filter pointers next to the timeout (a
    [time.Duration], nanoseconds). A nil pointer is [None]. *)
Record ReqStat := {
  Timeout : Z;
  ReqStat_FilterPipelineIndicatorNames : option FilterPipelineIndicatorNames;
  ReqStat_FilterPipelineIndicatorValue : option FilterPipelineIndicatorValue;
  ReqStat_FilterPipelineIndicatorDesc : option FilterPipelineIndicatorDesc;
  ReqStat_FilterPluginIndicatorNames : option FilterPluginIndicatorNames;
  ReqStat_FilterPluginIndicatorValue : option FilterPluginIndicatorValue;
  ReqStat_FilterPluginIndicatorDesc : option FilterPluginIndicatorDesc;
  ReqStat_FilterTaskIndicatorNames : option FilterTaskIndicatorNames;
  ReqStat_FilterTaskIndicatorValue : option FilterTaskIndicatorValue;
  ReqStat_FilterTaskIndicatorDesc : option FilterTaskIndicatorDesc
}.

(** The dynamic type of the [filter interface{}] argument of [issueStat] and
    [statResult]: one constructor per case of their type switches. *)
Inductive Filter :=
| OfPipelineIndicatorNames (f : FilterPipelineIndicatorNames)
| OfPipelineIndicatorValue (f : FilterPipelineIndicatorValue)
| OfPipelineIndicatorDesc (f : FilterPipelineIndicatorDesc)
| OfPluginIndicatorNames (f : FilterPluginIndicatorNames)
| OfPluginIndicatorValue (f : FilterPluginIndicatorValue)
| OfPluginIndicatorDesc (f : FilterPluginIndicatorDesc)
| OfTaskIndicatorNames (f : FilterTaskIndicatorNames)
| OfTaskIndicatorValue (f : FilterTaskIndicatorValue)
| OfTaskIndicatorDesc (f : FilterTaskIndicatorDesc).

(** [&ReqStat{Timeout: timeout}]: every filter nil. *)
Definition emptyReqStat (timeout : Z) : ReqStat :=
  {| Timeout := timeout;
     ReqStat_FilterPipelineIndicatorNames := None;
     ReqStat_FilterPipelineIndicatorValue := None;
     ReqStat_FilterPipelineIndicatorDesc := None;
     ReqStat_FilterPluginIndicatorNames := None;
     ReqStat_FilterPluginIndicatorValue := None;
     ReqStat_FilterPluginIndicatorDesc := None;
     ReqStat_FilterTaskIndicatorNames := None;
     ReqStat_FilterTaskIndicatorValue := None;
     ReqStat_FilterTaskIndicatorDesc := None |}.

(** The request [issueStat] builds: the timeout and the one filter the
    first type switch stores. *)
Definition newReqStat (timeout : Z) (filter : Filter) : ReqStat :=
  match filter with
  | OfPipelineIndicatorNames f =>
      {| Timeout := timeout;
         ReqStat_FilterPipelineIndicatorNames := Some f;
         ReqStat_FilterPipelineIndicatorValue := None;
         ReqStat_FilterPipelineIndicatorDesc := None;
         ReqStat_FilterPluginIndicatorNames := None;
         ReqStat_FilterPluginIndicatorValue := None;
         ReqStat_FilterPluginIndicatorDesc := None;
         ReqStat_FilterTaskIndicatorNames := None;
         ReqStat_FilterTaskIndicatorValue := None;
         ReqStat_FilterTaskIndicatorDesc := None |}
  | OfPipelineIndicatorValue f =>
      {| Timeout := timeout;
         ReqStat_FilterPipelineIndicatorNames := None;
         ReqStat_FilterPipelineIndicatorValue := Some f;
         ReqStat_FilterPipelineIndicatorDesc := None;
         ReqStat_FilterPluginIndicatorNames := None;
         ReqStat_FilterPluginIndicatorValue := None;
         ReqStat_FilterPluginIndicatorDesc := None;
         ReqStat_FilterTaskIndicatorNames := None;
         ReqStat_FilterTaskIndicatorValue := None;
         ReqStat_FilterTaskIndicatorDesc := None |}
  | OfPipelineIndicatorDesc f =>
      {| Timeout := timeout;
         ReqStat_FilterPipelineIndicatorNames := None;
         ReqStat_FilterPipelineIndicatorValue := None;
         ReqStat_FilterPipelineIndicatorDesc := Some f;
         ReqStat_FilterPluginIndicatorNames := None;
         ReqStat_FilterPluginIndicatorValue := None;
         ReqStat_FilterPluginIndicatorDesc := None;
         ReqStat_FilterTaskIndicatorNames := None;
         ReqStat_FilterTaskIndicatorValue := None;
         ReqStat_FilterTaskIndicatorDesc := None |}
  | OfPluginIndicatorNames f =>
      {| Timeout := timeout;
         ReqStat_FilterPipelineIndicatorNames := None;
         ReqStat_FilterPipelineIndicatorValue := None;
         ReqStat_FilterPipelineIndicatorDesc := None;
         ReqStat_FilterPluginIndicatorNames := Some f;
         ReqStat_FilterPluginIndicatorValue := None;
         ReqStat_FilterPluginIndicatorDesc := None;
         ReqStat_FilterTaskIndicatorNames := None;
         ReqStat_FilterTaskIndicatorValue := None;
         ReqStat_FilterTaskIndicatorDesc := None |}
  | OfPluginIndicatorValue f =>
      {| Timeout := timeout;
         ReqStat_FilterPipelineIndicatorNames := None;
         ReqStat_FilterPipelineIndicatorValue := None;
         ReqStat_FilterPipelineIndicatorDesc := None;
         ReqStat_FilterPluginIndicatorNames := None;
         ReqStat_FilterPluginIndicatorValue := Some f;
         ReqStat_FilterPluginIndicatorDesc := None;
         ReqStat_FilterTaskIndicatorNames := None;
         ReqStat_FilterTaskIndicatorValue := None;
         ReqStat_FilterTaskIndicatorDesc := None |}
  | OfPluginIndicatorDesc f =>
      {| Timeout := timeout;
         ReqStat_FilterPipelineIndicatorNames := None;
         ReqStat_FilterPipelineIndicatorValue := None;
         ReqStat_FilterPipelineIndicatorDesc := None;
         ReqStat_FilterPluginIndicatorNames := None;
         ReqStat_FilterPluginIndicatorValue := None;
         ReqStat_FilterPluginIndicatorDesc := Some f;
         ReqStat_FilterTaskIndicatorNames := None;
         ReqStat_FilterTaskIndicatorValue := None;
         ReqStat_FilterTaskIndicatorDesc := None |}
  | OfTaskIndicatorNames f =>
      {| Timeout := timeout;
         ReqStat_FilterPipelineIndicatorNames := None;
         ReqStat_FilterPipelineIndicatorValue := None;
         ReqStat_FilterPipelineIndicatorDesc := None;
         ReqStat_FilterPluginIndicatorNames := None;
         ReqStat_FilterPluginIndicatorValue := None;
         ReqStat_FilterPluginIndicatorDesc := None;
         ReqStat_FilterTaskIndicatorNames := Some f;
         ReqStat_FilterTaskIndicatorValue := None;
         ReqStat_FilterTaskIndicatorDesc := None |}
  | OfTaskIndicatorValue f =>
      {| Timeout := timeout;
         ReqStat_FilterPipelineIndicatorNames := None;
         ReqStat_FilterPipelineIndicatorValue := None;
         ReqStat_FilterPipelineIndicatorDesc := None;
         ReqStat_FilterPluginIndicatorNames := None;
         ReqStat_FilterPluginIndicatorValue := None;
         ReqStat_FilterPluginIndicatorDesc := None;
         ReqStat_FilterTaskIndicatorNames := None;
         ReqStat_FilterTaskIndicatorValue := Some f;
         ReqStat_FilterTaskIndicatorDesc := None |}
  | OfTaskIndicatorDesc f =>
      {| Timeout := timeout;
         ReqStat_FilterPipelineIndicatorNames := None;
         ReqStat_FilterPipelineIndicatorValue := None;
         ReqStat_FilterPipelineIndicatorDesc := None;
         ReqStat_FilterPluginIndicatorNames := None;
         ReqStat_FilterPluginIndicatorValue := None;
         ReqStat_FilterPluginIndicatorDesc := None;
         ReqStat_FilterTaskIndicatorNames := None;
         ReqStat_FilterTaskIndicatorValue := None;
         ReqStat_FilterTaskIndicatorDesc := Some f |}
  end.

(** ** Numbers *)

(** [int64] and [uint64] are integers reduced into their range after every
    operation; [float64] is IEEE binary64, computed with the reference
    operations of the standard library. *)
Definition wrap_int64 (z : Z) : Z := ((z + 2 ^ 63) mod 2 ^ 64 - 2 ^ 63)%Z.
Definition wrap_uint64 (z : Z) : Z := (z mod 2 ^ 64)%Z.

Definition MinInt64 : Z := (- 2 ^ 63)%Z.
Definition MaxInt64 : Z := (2 ^ 63 - 1)%Z.
Definition MaxUint64 : Z := (2 ^ 64 - 1)%Z.

Definition float64 := spec_float.
Definition prec : Z := 53.
Definition emax : Z := 1024.

Definition float64_add : float64 -> float64 -> float64 := SFadd prec emax.
Definition float64_div : float64 -> float64 -> float64 := SFdiv prec emax.
Definition float64_of_Z (z : Z) : float64 := binary_normalize prec emax z 0 false.

Definition NaN : float64 := S754_nan.

Definition IsNaN (f : float64) : bool :=
  match f with S754_nan => true | _ => false end.

(** [math.IsInf(f, sign)] for [sign] 1 ([false]) and -1 ([true]). *)
Definition IsInf (f : float64) (negative : bool) : bool :=
  match f with S754_infinity s => Bool.eqb s negative | _ => false end.

Definition Signbit (f : float64) : bool :=
  match f with
  | S754_zero s | S754_infinity s | S754_finite s _ _ => s
  | S754_nan => false
  end.

Definition is_finite (f : float64) : bool :=
  match f with S754_zero _ | S754_finite _ _ _ => true | _ => false end.

Definition float64_is_zero (f : float64) : bool :=
  match f with S754_zero _ => true | _ => false end.

(** [math.Max] and [math.Min], case by case. *)
Definition math_Max (x y : float64) : float64 :=
  if IsInf x false || IsInf y false then S754_infinity false
  else if IsNaN x || IsNaN y then NaN
  else if float64_is_zero x && SFeqb x y then (if Signbit x then y else x)
  else if SFltb y x then x else y.

Definition math_Min (x y : float64) : float64 :=
  if IsInf x true || IsInf y true then S754_infinity true
  else if IsNaN x || IsNaN y then NaN
  else if float64_is_zero x && SFeqb x y then (if Signbit x then x else y)
  else if SFltb x y then x else y.

(** ** JSON documents

    The [[]byte] blobs of a partial response ([Names], [Value], [Desc]) and
    the encoded scalars handed to the reducers are only ever produced by
    [json.Marshal] and read by [json.Unmarshal]. They are kept as the JSON
    document they spell: [encoding/json]'s scanner is outside this package,
    its decoding rules for the target types used here are below. *)

(** A number literal. An integer literal keeps its sign and digits, which
    is what decoding into [int64] and [uint64] looks at; a literal with a
    fraction or an exponent is known by the [float64] that
    [strconv.ParseFloat] gives for it (an infinity when it is out of
    range), the only thing any decoder here reads from it. *)
Inductive number :=
| IntLit (negative : bool) (digits : N)
| RealLit (f : float64).

Inductive json :=
| JNull
| JBool (b : bool)
| JNum (x : number)
| JStr (s : string)
| JArr (elements : list json)
| JObj (members : list (string * json)).

(** A [[]byte]: nil, the text of one JSON document, or other bytes. *)
Inductive bytes :=
| nil_bytes
| text (d : json)
| junk (raw : list byte).

Definition is_nil (b : bytes) : bool :=
  match b with nil_bytes => true | _ => false end.

(** A Go [interface{}] value, with the dynamic types that occur here: what
    the registry hands out and what [json.Unmarshal] stores into an
    [interface{}]. [AMap] lists a [map[string]interface{}] by increasing
    key. *)
Inductive any :=
| ANil
| ABool (b : bool)
| AInt64 (z : Z)
| AUint64 (z : Z)
| AFloat64 (f : float64)
| AString (s : string)
| ASlice (l : list any)
| AMap (m : list (string * any)).

Definition any_is_nil (a : any) : bool :=
  match a with ANil => true | _ => false end.

(** [strconv.ParseFloat] on a number literal; [None] is its range error. *)
Definition ParseFloat (x : number) : option float64 :=
  let f := match x with
           | IntLit negative digits =>
               binary_normalize prec emax
                 (if negative then Z.opp (Z.of_N digits) else Z.of_N digits) 0 negative
           | RealLit f => f
           end in
  if is_finite f then Some f else None.

(** [strconv.ParseInt(s, 10, 64)] and [strconv.ParseUint(s, 10, 64)]. *)
Definition ParseInt (x : number) : option Z :=
  match x with
  | IntLit negative digits =>
      let z := if negative then Z.opp (Z.of_N digits) else Z.of_N digits in
      if (MinInt64 <=? z)%Z && (z <=? MaxInt64)%Z then Some z else None
  | RealLit _ => None
  end.

Definition ParseUint (x : number) : option Z :=
  match x with
  | IntLit false digits =>
      if (Z.of_N digits <=? MaxUint64)%Z then Some (Z.of_N digits) else None
  | _ => None
  end.

(** How [json.Marshal] writes a [float64]: refused unless finite; an
    integral value below 1e21 is written with digits only, any other value
    with a fraction or an exponent. The digits are the fewest that read
    back as the same [float64]: the number written is a multiple of the
    highest power of ten that does, the nearer one to the value when there
    are two. Up to 2^53 that is the value itself. *)
Definition float64_integral (f : float64) : option (bool * N) :=
  match f with
  | S754_zero s => Some (s, 0%N)
  | S754_finite s m e =>
      match e with
      | Z0 => Some (s, Npos m)
      | Zpos k => Some (s, N.shiftl (Npos m) (Npos k))
      | Zneg k =>
          if N.eqb (N.land (Npos m) (N.ones (Npos k))) 0
          then Some (s, N.shiftr (Npos m) (Npos k)) else None
      end
  | _ => None
  end.

Definition reads_as (value n : N) : bool :=
  SFeqb (float64_of_Z (Z.of_N n)) (float64_of_Z (Z.of_N value)).

Fixpoint shortest_digits (k : nat) (value : N) : N :=
  match k with
  | O => value
  | S k' =>
      let p := (10 ^ N.of_nat k)%N in
      let lo := (value / p * p)%N in
      let hi := (lo + p)%N in
      if reads_as value lo then
        if reads_as value hi && (hi - value <? value - lo)%N then hi else lo
      else if reads_as value hi then hi
      else shortest_digits k' value
  end.

Definition Marshal_float64 (f : float64) : option number :=
  if is_finite f then
    match float64_integral f with
    | Some (s, n) =>
        if (n <? 10 ^ 21)%N then Some (IntLit s (shortest_digits 21 n))
        else Some (RealLit f)
    | None => Some (RealLit f)
    end
  else None.

Definition Marshal_int (z : Z) : number := IntLit (z <? 0)%Z (Z.abs_N z).

(** Member names are matched without regard to letter case; the folding
    here is the one of the ASCII letters. *)
Definition lower (c : ascii) : ascii :=
  let n := N_of_ascii c in
  if (65 <=? n)%N && (n <=? 90)%N then ascii_of_N (n + 32) else c.

Fixpoint fold_case (s : string) : string :=
  match s with
  | EmptyString => EmptyString
  | String c s' => String (lower c) (fold_case s')
  end.

Definition equalFold (s t : string) : bool := String.eqb (fold_case s) (fold_case t).

(** Insertion into a key-ordered [map[string]interface{}]: a repeated
    member name overwrites. *)
Fixpoint amap_insert (k : string) (v : any) (m : list (string * any)) : list (string * any) :=
  match m with
  | [] => [(k, v)]
  | (k', v') :: m' =>
      match String.compare k k' with
      | Lt => (k, v) :: m
      | Eq => (k, v) :: m'
      | Gt => (k', v') :: amap_insert k v m'
      end
  end.

(** Decoding a document into an [interface{}]; [None] is a returned
    error (a number out of the [float64] range). *)
Fixpoint decode_any (d : json) : option any :=
  match d with
  | JNull => Some ANil
  | JBool b => Some (ABool b)
  | JNum x => AFloat64 <$> ParseFloat x
  | JStr s => Some (AString s)
  | JArr elements => ASlice <$> mapM decode_any elements
  | JObj members =>
      AMap <$>
        fold_left
          (fun acc member =>
             match acc, decode_any (snd member) with
             | Some m, Some a => Some (amap_insert (fst member) a m)
             | _, _ => None
             end)
          members (Some [])
  end.

(** [json.Marshal] of an [interface{}]; [None] is its error (a float that
    is not finite). *)
Fixpoint encode_any (a : any) : option json :=
  match a with
  | ANil => Some JNull
  | ABool b => Some (JBool b)
  | AInt64 z | AUint64 z => Some (JNum (Marshal_int z))
  | AFloat64 f => JNum <$> Marshal_float64 f
  | AString s => Some (JStr s)
  | ASlice l => JArr <$> mapM encode_any l
  | AMap m =>
      JObj <$> mapM (fun member => pair (fst member) <$> encode_any (snd member)) m
  end.

(** ** Partial responses and their payloads *)

Record RespStat := {
  Names : bytes;
  Value : bytes;
  Desc : bytes;
  Err : option ClusterError
}.

(** Modelled from the spec: the result structures are declared outside
    stat.go. Their field types are the ones stat.go uses them at (a string
    slice that is sorted and ranged over, two values compared with nil and
    assigned from the registry); their member names are the ones the spec
    gives for the payloads, [{"Names":[..]}], [{"Value":..}] and
    [{"Desc":".."}]. A nil slice and an empty one are both the empty list. *)
Record ResultStatIndicatorNames := { ResultNames : list string }.
Record ResultStatIndicatorValue := { ResultValue : any }.
Record ResultStatIndicatorDesc := { ResultDesc : any }.

(** An element of a [[]string]: a string, or null, which leaves the fresh
    element empty. *)
Definition decode_string (d : json) : option string :=
  match d with
  | JStr s => Some s
  | JNull => Some ""
  | _ => None
  end.

Definition decode_strings (d : json) : option (list string) :=
  match d with
  | JNull => Some []
  | JArr elements => mapM decode_string elements
  | _ => None
  end.

(** Decoding an object into a structure of one field: every member whose
    name matches the field is decoded into it in turn; a member that does
    not fit the field's type makes [json.Unmarshal] return an error. *)
Fixpoint decode_field {A : Type} (key : string) (dec : json -> option A)
    (members : list (string * json)) (field : A) : option A :=
  match members with
  | [] => Some field
  | (k, v) :: rest =>
      if equalFold k key then
        match dec v with
        | Some a => decode_field key dec rest a
        | None => None
        end
      else decode_field key dec rest field
  end.

(** [json.Unmarshal(data, r)] for [r] a fresh one-field structure: [None]
    is a non-nil error. Null leaves the structure as it is. *)
Definition decode_struct {A : Type} (key : string) (dec : json -> option A)
    (zero : A) (data : bytes) : option A :=
  match data with
  | text JNull => Some zero
  | text (JObj members) => decode_field key dec members zero
  | _ => None
  end.

Definition json_Unmarshal_ResultStatIndicatorNames (data : bytes)
    : option ResultStatIndicatorNames :=
  match decode_struct "Names" decode_strings [] data with
  | Some names => Some {| ResultNames := names |}
  | None => None
  end.

Definition json_Unmarshal_ResultStatIndicatorValue (data : bytes)
    : option ResultStatIndicatorValue :=
  match decode_struct "Value" decode_any ANil data with
  | Some v => Some {| ResultValue := v |}
  | None => None
  end.

Definition json_Unmarshal_ResultStatIndicatorDesc (data : bytes)
    : option ResultStatIndicatorDesc :=
  match decode_struct "Desc" decode_any ANil data with
  | Some v => Some {| ResultDesc := v |}
  | None => None
  end.

(** [json.Marshal] of the result structures; [None] is its error. *)
Definition json_Marshal_ResultStatIndicatorNames (r : ResultStatIndicatorNames)
    : option bytes :=
  Some (text (JObj [("Names", JArr (map JStr (ResultNames r)))])).

Definition encode_ResultStatIndicatorValue (r : ResultStatIndicatorValue) : option json :=
  match encode_any (ResultValue r) with
  | Some d => Some (JObj [("Value", d)])
  | None => None
  end.

Definition json_Marshal_ResultStatIndicatorValue (r : ResultStatIndicatorValue)
    : option bytes :=
  match encode_ResultStatIndicatorValue r with
  | Some d => Some (text d)
  | None => None
  end.

Definition json_Marshal_ResultStatIndicatorDesc (r : ResultStatIndicatorDesc)
    : option bytes :=
  match encode_any (ResultDesc r) with
  | Some d => Some (text (JObj [("Desc", d)]))
  | None => None
  end.

(** [json.Marshal(indicatorValues)], a slice of result structures. *)
Definition json_Marshal_indicatorValues (l : list ResultStatIndicatorValue)
    : option bytes :=
  match mapM encode_ResultStatIndicatorValue l with
  | Some elements => Some (text (JArr elements))
  | None => None
  end.

Definition json_Marshal_any (a : any) : option bytes :=
  match encode_any a with
  | Some d => Some (text d)
  | None => None
  end.

(** [json.Unmarshal(value, &v)] for a fresh numeric [v]: null leaves the
    zero in place. *)
Definition json_Unmarshal_float64 (value : bytes) : option float64 :=
  match value with
  | text JNull => Some (S754_zero false)
  | text (JNum x) => ParseFloat x
  | _ => None
  end.

Definition json_Unmarshal_uint64 (value : bytes) : option Z :=
  match value with
  | text JNull => Some 0%Z
  | text (JNum x) => ParseUint x
  | _ => None
  end.

Definition json_Unmarshal_int64 (value : bytes) : option Z :=
  match value with
  | text JNull => Some 0%Z
  | text (JNum x) => ParseInt x
  | _ => None
  end.

Definition json_Marshal_float64 (f : float64) : option bytes :=
  match Marshal_float64 f with
  | Some x => Some (text (JNum x))
  | None => None
  end.

Definition json_Marshal_int (z : Z) : option bytes :=
  Some (text (JNum (Marshal_int z))).

(** [sort.Strings]: the increasing arrangement of the list under the byte
    order of Go's string comparison. *)
Fixpoint insert_sorted (s : string) (l : list string) : list string :=
  match l with
  | [] => [s]
  | x :: l' => if String.leb s x then s :: l else x :: insert_sorted s l'
  end.

Definition sort_Strings (l : list string) : list string :=
  fold_right insert_sorted [] l.

(** ** Numeric reducers *)

(** The loop shared by the reducers: decode each value, skip it on error,
    otherwise update the accumulator and set [handledAny]. *)
Definition each_decoded {V A : Type} (decode : bytes -> option V)
    (step : A -> V -> A) (values : list bytes) (init : A) : A * bool :=
  fold_left
    (fun '(acc, handledAny) value =>
       match decode value with
       | None => (acc, handledAny)
       | Some v => (step acc v, true)
       end)
    values (init, false).

Definition or_nil (b : option bytes) : bytes :=
  match b with Some retBuff => retBuff | None => nil_bytes end.

Definition numericMax (typ : any) (values : list bytes) : bytes :=
  if (length values =? 0)%nat then nil_bytes else
  match typ with
  | AFloat64 _ =>
      let '(max, handledAny) :=
        each_decoded json_Unmarshal_float64
          (fun max v => if IsNaN max then v else math_Max max v) values NaN in
      if negb handledAny then nil_bytes else or_nil (json_Marshal_float64 max)
  | AUint64 _ =>
      let '(max, handledAny) :=
        each_decoded json_Unmarshal_uint64
          (fun max v => if (max <? v)%Z then v else max) values 0%Z in
      if negb handledAny then nil_bytes else or_nil (json_Marshal_int max)
  | AInt64 _ =>
      let '(max, handledAny) :=
        each_decoded json_Unmarshal_int64
          (fun max v => if (max <? v)%Z then v else max) values MinInt64 in
      if negb handledAny then nil_bytes else or_nil (json_Marshal_int max)
  | _ => nil_bytes
  end.

Definition numericMin (typ : any) (values : list bytes) : bytes :=
  if (length values =? 0)%nat then nil_bytes else
  match typ with
  | AFloat64 _ =>
      let '(min, handledAny) :=
        each_decoded json_Unmarshal_float64
          (fun min v => if IsNaN min then v else math_Min min v) values NaN in
      if negb handledAny then nil_bytes else or_nil (json_Marshal_float64 min)
  | AUint64 _ =>
      let '(min, handledAny) :=
        each_decoded json_Unmarshal_uint64
          (fun min v => if (v <? min)%Z then v else min) values MaxUint64 in
      if negb handledAny then nil_bytes else or_nil (json_Marshal_int min)
  | AInt64 _ =>
      let '(min, handledAny) :=
        each_decoded json_Unmarshal_int64
          (fun min v => if (v <? min)%Z then v else min) values MaxInt64 in
      if negb handledAny then nil_bytes else or_nil (json_Marshal_int min)
  | _ => nil_bytes
  end.

Definition numericSum (typ : any) (values : list bytes) : bytes :=
  if (length values =? 0)%nat then nil_bytes else
  match typ with
  | AFloat64 _ =>
      let '(sum, handledAny) :=
        each_decoded json_Unmarshal_float64
          (fun sum v => float64_add sum v) values (S754_zero false) in
      if negb handledAny then nil_bytes else or_nil (json_Marshal_float64 sum)
  | AUint64 _ =>
      let '(sum, handledAny) :=
        each_decoded json_Unmarshal_uint64
          (fun sum v => wrap_uint64 (sum + v)) values 0%Z in
      if negb handledAny then nil_bytes else or_nil (json_Marshal_int sum)
  | AInt64 _ =>
      let '(sum, handledAny) :=
        each_decoded json_Unmarshal_int64
          (fun sum v => wrap_int64 (sum + v)) values 0%Z in
      if negb handledAny then nil_bytes else or_nil (json_Marshal_int sum)
  | _ => nil_bytes
  end.

Definition numericAvg (typ : any) (values : list bytes) : bytes :=
  if (length values =? 0)%nat then nil_bytes else
  match typ with
  | AFloat64 _ =>
      let '((sum, count), handledAny) :=
        each_decoded json_Unmarshal_float64
          (fun '(sum, count) v => (float64_add sum v, float64_add count (float64_of_Z 1)))
          values (S754_zero false, S754_zero false) in
      if float64_is_zero count then nil_bytes else
      if negb handledAny then nil_bytes
      else or_nil (json_Marshal_float64 (float64_div sum count))
  | AUint64 _ =>
      let '((sum, count), handledAny) :=
        each_decoded json_Unmarshal_uint64
          (fun '(sum, count) v => (wrap_uint64 (sum + v), wrap_uint64 (count + 1)))
          values (0%Z, 0%Z) in
      if (count =? 0)%Z then nil_bytes else
      if negb handledAny then nil_bytes else or_nil (json_Marshal_int (sum / count)%Z)
  | AInt64 _ =>
      let '((sum, count), handledAny) :=
        each_decoded json_Unmarshal_int64
          (fun '(sum, count) v => (wrap_int64 (sum + v), wrap_int64 (count + 1)))
          values (0%Z, 0%Z) in
      if (count =? 0)%Z then nil_bytes else
      if negb handledAny then nil_bytes else or_nil (json_Marshal_int (Z.quot sum count))
  | _ => nil_bytes
  end.

Definition stateAggregator := list bytes -> bytes.

Definition maxFloat64 : stateAggregator := numericMax (AFloat64 (S754_zero false)).
Definition minFloat64 : stateAggregator := numericMin (AFloat64 (S754_zero false)).
Definition sumFloat64 : stateAggregator := numericSum (AFloat64 (S754_zero false)).
Definition avgFloat64 : stateAggregator := numericAvg (AFloat64 (S754_zero false)).

Definition maxUint64 : stateAggregator := numericMax (AUint64 0).
Definition minUint64 : stateAggregator := numericMin (AUint64 0).
Definition sumUint64 : stateAggregator := numericSum (AUint64 0).
Definition avgUint64 : stateAggregator := numericAvg (AUint64 0).

Definition maxInt64 : stateAggregator := numericMax (AInt64 0).
Definition minInt64 : stateAggregator := numericMin (AInt64 0).
Definition sumInt64 : stateAggregator := numericSum (AInt64 0).
Definition avgInt64 : stateAggregator := numericAvg (AInt64 0).

(** ** The aggregator catalog *)

Definition pipelineIndicatorAggregateMap : gmap string stateAggregator :=
  list_to_map [
    ("THROUGHPUT_RATE_LAST_1MIN_ALL", sumFloat64);
    ("THROUGHPUT_RATE_LAST_5MIN_ALL", sumFloat64);
    ("THROUGHPUT_RATE_LAST_15MIN_ALL", sumFloat64);

    ("EXECUTION_COUNT_ALL", sumInt64);
    ("EXECUTION_TIME_MAX_ALL", maxInt64);
    ("EXECUTION_TIME_MIN_ALL", minInt64);

    ("EXECUTION_TIME_50_PERCENT_ALL", maxFloat64);
    ("EXECUTION_TIME_90_PERCENT_ALL", maxFloat64);
    ("EXECUTION_TIME_99_PERCENT_ALL", maxFloat64);

    ("EXECUTION_TIME_STD_DEV_ALL", maxFloat64);
    ("EXECUTION_TIME_VARIANCE_ALL", maxFloat64);
    ("EXECUTION_TIME_SUM_ALL", sumInt64)
  ].

Definition pluginIndicatorAggregateMap : gmap string stateAggregator :=
  list_to_map [
    ("THROUGHPUT_RATE_LAST_1MIN_ALL", sumFloat64);
    ("THROUGHPUT_RATE_LAST_5MIN_ALL", sumFloat64);
    ("THROUGHPUT_RATE_LAST_15MIN_ALL", sumFloat64);
    ("THROUGHPUT_RATE_LAST_1MIN_SUCCESS", sumFloat64);
    ("THROUGHPUT_RATE_LAST_5MIN_SUCCESS", sumFloat64);
    ("THROUGHPUT_RATE_LAST_15MIN_SUCCESS", sumFloat64);
    ("THROUGHPUT_RATE_LAST_1MIN_FAILURE", sumFloat64);
    ("THROUGHPUT_RATE_LAST_5MIN_FAILURE", sumFloat64);
    ("THROUGHPUT_RATE_LAST_15MIN_FAILURE", sumFloat64);

    ("EXECUTION_COUNT_ALL", sumInt64);
    ("EXECUTION_COUNT_SUCCESS", sumInt64);
    ("EXECUTION_COUNT_FAILURE", sumInt64);

    ("EXECUTION_TIME_MAX_ALL", maxInt64);
    ("EXECUTION_TIME_MAX_SUCCESS", maxInt64);
    ("EXECUTION_TIME_MAX_FAILURE", maxInt64);
    ("EXECUTION_TIME_MIN_ALL", minInt64);
    ("EXECUTION_TIME_MIN_SUCCESS", minInt64);
    ("EXECUTION_TIME_MIN_FAILURE", minInt64);

    ("EXECUTION_TIME_50_PERCENT_SUCCESS", maxFloat64);
    ("EXECUTION_TIME_50_PERCENT_FAILURE", maxFloat64);
    ("EXECUTION_TIME_90_PERCENT_SUCCESS", maxFloat64);
    ("EXECUTION_TIME_90_PERCENT_FAILURE", maxFloat64);
    ("EXECUTION_TIME_99_PERCENT_SUCCESS", maxFloat64);
    ("EXECUTION_TIME_99_PERCENT_FAILURE", maxFloat64);

    ("EXECUTION_TIME_STD_DEV_SUCCESS", maxFloat64);
    ("EXECUTION_TIME_STD_DEV_FAILURE", maxFloat64);
    ("EXECUTION_TIME_VARIANCE_SUCCESS", maxFloat64);
    ("EXECUTION_TIME_VARIANCE_FAILURE", maxFloat64);

    ("EXECUTION_TIME_SUM_ALL", sumInt64);
    ("EXECUTION_TIME_SUM_SUCCESS", sumInt64);
    ("EXECUTION_TIME_SUM_FAILURE", sumInt64);

    ("WAIT_QUEUE_LENGTH", sumUint64);
    ("WIP_REQUEST_COUNT", sumUint64);

    ("RECENT_HEADER_COUNT ", sumUint64)
  ].

Definition taskIndicatorAggregateMap : gmap string stateAggregator :=
  list_to_map [
    ("EXECUTION_COUNT_ALL", sumUint64);
    ("EXECUTION_COUNT_SUCCESS", sumUint64);
    ("EXECUTION_COUNT_FAILURE", sumUint64)
  ].

(** ** The response combiner *)

(** What a call does: it returns, or it panics on a nil pointer. *)
Inductive outcome (A : Type) :=
| Returns (a : A)
| Panics.
Arguments Returns {A} a.
Arguments Panics {A}.

(** [p != nil] for a pointer. *)
Definition notNil {A : Type} (p : option A) : bool :=
  match p with Some _ => true | None => false end.

Definition onlyNames (b : bytes) : RespStat :=
  {| Names := b; Value := nil_bytes; Desc := nil_bytes; Err := None |}.
Definition onlyValue (b : bytes) : RespStat :=
  {| Names := nil_bytes; Value := b; Desc := nil_bytes; Err := None |}.
Definition onlyDesc (b : bytes) : RespStat :=
  {| Names := nil_bytes; Value := nil_bytes; Desc := b; Err := None |}.

(** The inner loop of the names case: append each name not yet in
    [memory] and remember it. *)
Definition addNames (names : list string) (st : list string * gset string)
    : list string * gset string :=
  fold_left
    (fun '(ret, memory) name =>
       if decide (name ∈ memory) then (ret, memory)
       else ((ret ++ [name])%list, {[name]} ∪ memory))
    names st.

(** The outer loop: partials whose names do not decode are skipped. *)
Definition collectNames (respStats : list RespStat) : list string * gset string :=
  fold_left
    (fun st resp =>
       match json_Unmarshal_ResultStatIndicatorNames (Names resp) with
       | None => st
       | Some r => addNames (ResultNames r) st
       end)
    respStats ([], ∅).

Definition aggregateNames (respStats : list RespStat) : option RespStat :=
  let ret := {| ResultNames := sort_Strings (fst (collectNames respStats)) |} in
  match json_Marshal_ResultStatIndicatorNames ret with
  | None => None
  | Some retBuff => Some (onlyNames retBuff)
  end.

(** The description case: the first partial whose description decodes
    without error to a value that is not nil, handed back as it came. *)
Fixpoint aggregateDesc (respStats : list RespStat) : option RespStat :=
  match respStats with
  | [] => None
  | resp :: rest =>
      match json_Unmarshal_ResultStatIndicatorDesc (Desc resp) with
      | None => aggregateDesc rest
      | Some r =>
          if any_is_nil (ResultDesc r) then aggregateDesc rest
          else Some (onlyDesc (Desc resp))
      end
  end.

(** One value case of the switch up to its [fallthrough]: while
    [indicatorName] is still empty it is read through the case's filter
    pointer, which panics when that pointer is nil, and the aggregator is
    looked up in the case's table. *)
Definition valueCase (filterIndicatorName : option string)
    (table : gmap string stateAggregator)
    (st : string * option stateAggregator) : outcome (string * option stateAggregator) :=
  let '(indicatorName, aggregator) := st in
  if (String.length indicatorName =? 0)%nat then
    match filterIndicatorName with
    | None => Panics
    | Some name =>
        Returns (name, match aggregator with
                       | None => table !! name
                       | Some _ => aggregator
                       end)
    end
  else Returns st.

Definition pipelineValueCase (reqStat : ReqStat) :=
  valueCase (PipelineValue_IndicatorName <$> ReqStat_FilterPipelineIndicatorValue reqStat)
    pipelineIndicatorAggregateMap.
Definition pluginValueCase (reqStat : ReqStat) :=
  valueCase (PluginValue_IndicatorName <$> ReqStat_FilterPluginIndicatorValue reqStat)
    pluginIndicatorAggregateMap.
Definition taskValueCase (reqStat : ReqStat) :=
  valueCase (TaskValue_IndicatorName <$> ReqStat_FilterTaskIndicatorValue reqStat)
    taskIndicatorAggregateMap.

(** The partials whose value decodes without error to a value that is
    not nil, in order. *)
Fixpoint indicatorValuesOf (respStats : list RespStat) : list ResultStatIndicatorValue :=
  match respStats with
  | [] => []
  | resp :: rest =>
      match json_Unmarshal_ResultStatIndicatorValue (Value resp) with
      | None => indicatorValuesOf rest
      | Some r =>
          if any_is_nil (ResultValue r) then indicatorValuesOf rest
          else r :: indicatorValuesOf rest
      end
  end.

(** The re-encoded values handed to a known aggregator. *)
Fixpoint valuesOf (indicatorValues : list ResultStatIndicatorValue) : list bytes :=
  match indicatorValues with
  | [] => []
  | value :: rest =>
      match json_Marshal_any (ResultValue value) with
      | None => valuesOf rest
      | Some valueBuff => valueBuff :: valuesOf rest
      end
  end.

(** The end of the value cases, after the last [fallthrough]. *)
Definition aggregateValue (st : string * option stateAggregator)
    (respStats : list RespStat) : option RespStat :=
  let '(indicatorName, aggregator) := st in
  if (String.length indicatorName =? 0)%nat then None else
  let indicatorValues := indicatorValuesOf respStats in
  match aggregator with
  | None =>
      match json_Marshal_indicatorValues indicatorValues with
      | None => None
      | Some retBuff => Some (onlyValue retBuff)
      end
  | Some aggregate =>
      let values := valuesOf indicatorValues in
      if (length values =? 0)%nat then None else
      let value := aggregate values in
      if negb (is_nil value) then Some (onlyValue value) else None
  end.

Definition bind_outcome {A B : Type} (o : outcome A) (k : A -> outcome B) : outcome B :=
  match o with
  | Returns a => k a
  | Panics => Panics
  end.

Definition aggregateStatResponses (reqStat : ReqStat) (respStats : list RespStat)
    : outcome (option RespStat) :=
  let start : string * option stateAggregator := ("", None) in
  if notNil (ReqStat_FilterPipelineIndicatorNames reqStat)
     || notNil (ReqStat_FilterPluginIndicatorNames reqStat)
     || notNil (ReqStat_FilterTaskIndicatorNames reqStat)
  then Returns (aggregateNames respStats)
  else if notNil (ReqStat_FilterPipelineIndicatorDesc reqStat)
     || notNil (ReqStat_FilterPluginIndicatorDesc reqStat)
     || notNil (ReqStat_FilterTaskIndicatorDesc reqStat)
  then Returns (aggregateDesc respStats)
  else if notNil (ReqStat_FilterPipelineIndicatorValue reqStat)
  then
    bind_outcome (pipelineValueCase reqStat start) (fun st =>
    bind_outcome (pluginValueCase reqStat st) (fun st =>
    bind_outcome (taskValueCase reqStat st) (fun st =>
    Returns (aggregateValue st respStats))))
  else if notNil (ReqStat_FilterPluginIndicatorValue reqStat)
  then
    bind_outcome (pluginValueCase reqStat start) (fun st =>
    bind_outcome (taskValueCase reqStat st) (fun st =>
    Returns (aggregateValue st respStats)))
  else if notNil (ReqStat_FilterTaskIndicatorValue reqStat)
  then
    bind_outcome (taskValueCase reqStat start) (fun st =>
    Returns (aggregateValue st respStats))
  else Returns None.

(** ** Request validation *)

Definition emptyString (s : string) : bool := (String.length s =? 0)%nat.

(** The switch of [unpackReqStat] over the unpacked request: [None] when
    the request passes, otherwise the error and its kind. *)
Definition checkSelectors (reqStat : ReqStat) : option (error * ClusterErrorType) :=
  match ReqStat_FilterPipelineIndicatorNames reqStat with
  | Some f =>
      if emptyString (PipelineNames_PipelineName f) then
        Some ("empty pipeline name in filter to retireve " ++
              "pipeline statistics indicator names", InternalServerError)
      else None
  | None =>
  match ReqStat_FilterPipelineIndicatorValue reqStat with
  | Some f =>
      if emptyString (PipelineValue_PipelineName f) then
        Some ("empty pipeline name in filter to retrieve " ++
              "pipeline statistics indicator value", InternalServerError)
      else if emptyString (PipelineValue_IndicatorName f) then
        Some ("empty indicator name in filter to " ++
              "retrieve pipeline statistics indicator value", InternalServerError)
      else None
  | None =>
  match ReqStat_FilterPipelineIndicatorDesc reqStat with
  | Some f =>
      if emptyString (PipelineDesc_PipelineName f) then
        Some ("empty pipeline name in filter to retrieve " ++
              "pipeline statistics indicator description", InternalServerError)
      else if emptyString (PipelineDesc_IndicatorName f) then
        Some ("empty indicator name in filter to retrieve " ++
              "pipeline statistics indicator description", InternalServerError)
      else None
  | None =>
  match ReqStat_FilterPluginIndicatorNames reqStat with
  | Some f =>
      if emptyString (PluginNames_PipelineName f) then
        Some ("empty pipeline name in filter to retrieve " ++
              "plugin statistics indicator names", InternalServerError)
      else if emptyString (PluginNames_PluginName f) then
        Some ("empty plugin name in filter to retrieve " ++
              "plugin statistics indicator names", InternalServerError)
      else None
  | None =>
  match ReqStat_FilterPluginIndicatorValue reqStat with
  | Some f =>
      if emptyString (PluginValue_PipelineName f) then
        Some ("empty pipeline name in filter to retrieve " ++
              "plugin statistics indicator value", InternalServerError)
      else if emptyString (PluginValue_PluginName f) then
        Some ("empty plugin name in filter to retrieve " ++
              "plugin statistics indicator value", InternalServerError)
      else if emptyString (PluginValue_IndicatorName f) then
        Some ("empty indicator name in filter to retrieve " ++
              "plugin statistics indicator value", InternalServerError)
      else None
  | None =>
  match ReqStat_FilterPluginIndicatorDesc reqStat with
  | Some f =>
      if emptyString (PluginDesc_PipelineName f) then
        Some ("empty pipeline name in filter to retrieve " ++
              "plugin statistics indicator description", InternalServerError)
      else if emptyString (PluginDesc_PluginName f) then
        Some ("empty plugin name in filter to retrieve " ++
              "plugin statistics indicator description", InternalServerError)
      else if emptyString (PluginDesc_IndicatorName f) then
        Some ("empty indicator name in filter to retrieve " ++
              "plugin statistics indicator description", InternalServerError)
      else None
  | None =>
  match ReqStat_FilterTaskIndicatorNames reqStat with
  | Some f =>
      if emptyString (TaskNames_PipelineName f) then
        Some ("empty pipeline name in filter to retrieve " ++
              "task statistics indicator names", InternalServerError)
      else None
  | None =>
  match ReqStat_FilterTaskIndicatorValue reqStat with
  | Some f =>
      if emptyString (TaskValue_PipelineName f) then
        Some ("empty pipeline name in filter to retrieve " ++
              "task statistics indicator value", InternalServerError)
      else if emptyString (TaskValue_IndicatorName f) then
        Some ("empty indicator name in filter to retrieve " ++
              "task statistics indicator value", InternalServerError)
      else None
  | None =>
  match ReqStat_FilterTaskIndicatorDesc reqStat with
  | Some f =>
      if emptyString (TaskDesc_PipelineName f) then
        Some ("empty pipeline name in filter to retrieve " ++
              "task statistics indicator description", InternalServerError)
      else if emptyString (TaskDesc_IndicatorName f) then
        Some ("empty indicator name in filter to retrieve " ++
              "task statistics indicator description", InternalServerError)
      else None
  | None => Some ("empty statistics filter", InternalServerError)
  end end end end end end end end end.

(** ** The cluster and the registry, as stat.go sees them *)

(** Modelled from the spec: [cluster.Member] is declared in package
    cluster. Its fields are the ones read here; the status values are the
    ones the spec lists (alive, failed, left). *)
Inductive MemberStatus := MemberAlive | MemberFailed | MemberLeft.

Record Member := {
  NodeName : string;
  NodeTags : gmap string string;
  Status : MemberStatus
}.

Definition MemberStatus_eqb (a b : MemberStatus) : bool :=
  match a, b with
  | MemberAlive, MemberAlive | MemberFailed, MemberFailed | MemberLeft, MemberLeft => true
  | _, _ => false
  end.

(** [tags[key]]: the empty string for a missing key. *)
Definition tag (tags : gmap string string) (key : string) : string :=
  default "" (tags !! key).

Record RequestParam := {
  TargetNodeNames : list string;
  TargetNodeTags : gmap string string;
  RequestParam_Timeout : Z;
  ResponseRelayCount : Z
}.

Record MemberResponse := {
  ResponseNodeName : string;
  Payload : list byte
}.

(** A [cluster.Future], by the responses its channel delivers before it is
    closed. *)
Definition Future := list MemberResponse.

Record RequestEvent := {
  RequestName : string;
  RequestNodeName : string;
  RequestPayload : list byte
}.

(** Modelled from the spec: the statistics of one pipeline, as the registry
    interface of the spec describes them (names, a value or a failure, a
    description string or a failure, for the pipeline, a plugin and the
    task). *)
Record PipelineStatistics := {
  PipelineIndicatorNames : list string;
  PipelineIndicatorValue : string -> any + error;
  PipelineIndicatorDescription : string -> string + error;
  PluginIndicatorNames : string -> list string;
  PluginIndicatorValue : string -> string -> any + error;
  PluginIndicatorDescription : string -> string -> string + error;
  TaskIndicatorNames : list string;
  TaskIndicatorValue : string -> any + error;
  TaskIndicatorDescription : string -> string + error
}.

(** What the handlers do to the outside: a response sent with
    [req.Respond], a request issued with [gc.cluster.Request], a panic.
    Calls to the logger are not recorded. *)
Inductive event :=
| Respond (respBuff : list byte)
| Request (requestName : string) (requestPayload : list byte) (requestParam : RequestParam)
| Panic.

(** The receiver [gc], by what stat.go asks of it. [cluster_Request] is
    the answer of [gc.cluster.Request]; [stopChan] tells whether the stop
    case of a select is the one taken; [recordResp] gives the response
    book after the call, listed in the order the following [range] visits
    it. *)
Record GatewayCluster := {
  cluster_Members : list Member;
  cluster_Request : string -> list byte -> RequestParam -> Future + error;
  stopChan : bool;
  StatRegistry_GetPipelineStatistics : string -> option PipelineStatistics;
  restAliveMembersInSameGroup : list Member;
  localGroupName : string;
  recordResp : string -> Future -> gmap string (list byte) -> list (string * list byte)
}.

(** The names stat.go uses that are declared elsewhere: constants of the
    package, the codec of package cluster, and [respondRetrieveErr]. *)
Class Env := {
  groupTagKey : string;
  modeTagKey : string;
  ReadMode_String : string;
  statMessage : byte;
  statRelayMessage : byte;
  Unpack_ReqStat : list byte -> ReqStat + error;
  Unpack_RespStat : list byte -> RespStat + error;
  PackWithHeader_ReqStat : ReqStat -> byte -> list byte + error;
  PackWithHeader_RespStat : option RespStat -> byte -> list byte + error;
  respondRetrieveErr : RequestEvent -> ClusterErrorType -> string -> list event
}.

(** How a [for .. range] statement declares its iteration variable: once
    for the whole loop (the language up to Go 1.21, and the one this
    GOPATH-style package was written in), or once per iteration (modules
    that declare Go 1.22 or later). *)
Inductive RangeVar := PerLoop | PerIteration.

Section Gateway.
Context `{Env}.

(** ** Choosing the member that aggregates *)

(** The loop keeps pointers to its iteration variable [member]: the heap
    holds the variables, [readMembers] and [writeMembers] their addresses.
    [memberVar] is the address of the variable of iteration [i]. *)
Definition memberVar (rv : RangeVar) (i : nat) : nat :=
  match rv with
  | PerLoop => 0
  | PerIteration => i
  end.

Record selection := {
  heap : gmap nat Member;
  readMembers : list nat;
  writeMembers : list nat
}.

(** One iteration: [member] receives the element, then the two tests. *)
Definition selectMember (rv : RangeVar) (group : string) (i : nat) (member : Member)
    (st : selection) : selection :=
  let p := memberVar rv i in
  let heap' := <[p := member]> (heap st) in
  if String.eqb (tag (NodeTags member) groupTagKey) group
     && MemberStatus_eqb (Status member) MemberAlive
  then
    if String.eqb (tag (NodeTags member) modeTagKey) ReadMode_String
    then {| heap := heap';
            readMembers := (readMembers st ++ [p])%list;
            writeMembers := writeMembers st |}
    else {| heap := heap';
            readMembers := readMembers st;
            writeMembers := (writeMembers st ++ [p])%list |}
  else {| heap := heap'; readMembers := readMembers st; writeMembers := writeMembers st |}.

Fixpoint rangeMembers (rv : RangeVar) (group : string) (totalMembers : list Member)
    (i : nat) (st : selection) : selection :=
  match totalMembers with
  | [] => st
  | member :: rest => rangeMembers rv group rest (S i) (selectMember rv group i member st)
  end.

(** [members[rand.Int() % len(members)]], read through the pointer. *)
Definition pickMember (heap : gmap nat Member) (members : list nat) (rand_Int : nat)
    : outcome Member :=
  match members !! (rand_Int mod length members) with
  | Some p =>
      match heap !! p with
      | Some member => Returns member
      | None => Panics
      end
  | None => Panics
  end.

Definition chooseMemberToAggregateStat (gc : GatewayCluster) (rv : RangeVar)
    (rand_Int : nat) (group : string) : outcome (Member + error) :=
  let st := rangeMembers rv group (cluster_Members gc) 0
              {| heap := ∅; readMembers := []; writeMembers := [] |} in
  if (0 <? length (readMembers st))%nat then
    bind_outcome (pickMember (heap st) (readMembers st) rand_Int) (fun m => Returns (inl m))
  else if (0 <? length (writeMembers st))%nat then
    bind_outcome (pickMember (heap st) (writeMembers st) rand_Int) (fun m => Returns (inl m))
  else Returns (inr "none of members is alive to aggregate statistics").

(** ** Unpacking and answering *)

Definition unpackReqStat (payload : list byte) : ReqStat + (error * ClusterErrorType) :=
  match Unpack_ReqStat payload with
  | inr err =>
      inr ("unpack " ++ string_of_list_byte payload ++ " to ReqStat failed: " ++ err,
           WrongMessageFormatError)
  | inl reqStat =>
      match checkSelectors reqStat with
      | Some failure => inr failure
      | None => inl reqStat
      end
  end.

(** [resp] is a pointer and may be nil. *)
Definition respondStat (req : RequestEvent) (resp : option RespStat) : list event :=
  match RequestPayload req with
  | [] => []
  | header :: _ =>
      match PackWithHeader_RespStat resp header with
      | inr _ => []
      | inl respBuff => [Respond respBuff]
      end
  end.

Definition respondStatErr (req : RequestEvent) (typ : ClusterErrorType) (msg : string)
    : list event :=
  respondStat req
    (Some {| Names := nil_bytes; Value := nil_bytes; Desc := nil_bytes;
             Err := Some (newClusterError msg typ) |}).

(** ** The local resolver *)

(** The text of [json.Marshal]'s error, without the value it names. *)
Definition UnsupportedValueError : error := "json: unsupported value".

Definition statNotFound {A : Type} (PipelineName : string) : A + (error * ClusterErrorType) :=
  inr ("pipeline " ++ PipelineName ++ " statistics not found", PipelineStatNotFoundError).

Definition marshalled (b : option bytes) : bytes + (error * ClusterErrorType) :=
  match b with
  | Some retBuff => inl retBuff
  | None =>
      inr ("marshal statistics result failed: " ++ UnsupportedValueError, InternalServerError)
  end.

Definition statResult (gc : GatewayCluster) (filter : Filter)
    : bytes + (error * ClusterErrorType) :=
  match filter with
  | OfPipelineIndicatorNames filter =>
      match StatRegistry_GetPipelineStatistics gc (PipelineNames_PipelineName filter) with
      | None => statNotFound (PipelineNames_PipelineName filter)
      | Some stat =>
          marshalled (json_Marshal_ResultStatIndicatorNames
            {| ResultNames := sort_Strings (PipelineIndicatorNames stat) |})
      end
  | OfPipelineIndicatorValue filter =>
      match StatRegistry_GetPipelineStatistics gc (PipelineValue_PipelineName filter) with
      | None => statNotFound (PipelineValue_PipelineName filter)
      | Some stat =>
          match PipelineIndicatorValue stat (PipelineValue_IndicatorName filter) with
          | inr err => inr (err, RetrievePipelineStatValueError)
          | inl v => marshalled (json_Marshal_ResultStatIndicatorValue {| ResultValue := v |})
          end
      end
  | OfPipelineIndicatorDesc filter =>
      match StatRegistry_GetPipelineStatistics gc (PipelineDesc_PipelineName filter) with
      | None => statNotFound (PipelineDesc_PipelineName filter)
      | Some stat =>
          match PipelineIndicatorDescription stat (PipelineDesc_IndicatorName filter) with
          | inr err => inr (err, RetrievePipelineStatDescError)
          | inl d =>
              marshalled (json_Marshal_ResultStatIndicatorDesc {| ResultDesc := AString d |})
          end
      end
  | OfPluginIndicatorNames filter =>
      match StatRegistry_GetPipelineStatistics gc (PluginNames_PipelineName filter) with
      | None => statNotFound (PluginNames_PipelineName filter)
      | Some stat =>
          marshalled (json_Marshal_ResultStatIndicatorNames
            {| ResultNames :=
                 sort_Strings (PluginIndicatorNames stat (PluginNames_PluginName filter)) |})
      end
  | OfPluginIndicatorValue filter =>
      match StatRegistry_GetPipelineStatistics gc (PluginValue_PipelineName filter) with
      | None => statNotFound (PluginValue_PipelineName filter)
      | Some stat =>
          match PluginIndicatorValue stat (PluginValue_PluginName filter)
                  (PluginValue_IndicatorName filter) with
          | inr err => inr (err, RetrievePluginStatValueError)
          | inl v => marshalled (json_Marshal_ResultStatIndicatorValue {| ResultValue := v |})
          end
      end
  | OfPluginIndicatorDesc filter =>
      match StatRegistry_GetPipelineStatistics gc (PluginDesc_PipelineName filter) with
      | None => statNotFound (PluginDesc_PipelineName filter)
      | Some stat =>
          match PluginIndicatorDescription stat (PluginDesc_PluginName filter)
                  (PluginDesc_IndicatorName filter) with
          | inr err => inr (err, RetrievePluginStatDescError)
          | inl d =>
              marshalled (json_Marshal_ResultStatIndicatorDesc {| ResultDesc := AString d |})
          end
      end
  | OfTaskIndicatorNames filter =>
      match StatRegistry_GetPipelineStatistics gc (TaskNames_PipelineName filter) with
      | None => statNotFound (TaskNames_PipelineName filter)
      | Some stat =>
          marshalled (json_Marshal_ResultStatIndicatorNames
            {| ResultNames := sort_Strings (TaskIndicatorNames stat) |})
      end
  | OfTaskIndicatorValue filter =>
      match StatRegistry_GetPipelineStatistics gc (TaskValue_PipelineName filter) with
      | None => statNotFound (TaskValue_PipelineName filter)
      | Some stat =>
          match TaskIndicatorValue stat (TaskValue_IndicatorName filter) with
          | inr err => inr (err, RetrieveTaskStatValueError)
          | inl v => marshalled (json_Marshal_ResultStatIndicatorValue {| ResultValue := v |})
          end
      end
  | OfTaskIndicatorDesc filter =>
      match StatRegistry_GetPipelineStatistics gc (TaskDesc_PipelineName filter) with
      | None => statNotFound (TaskDesc_PipelineName filter)
      | Some stat =>
          match TaskIndicatorDescription stat (TaskDesc_IndicatorName filter) with
          | inr err => inr (err, RetrieveTaskStatDescError)
          | inl d =>
              marshalled (json_Marshal_ResultStatIndicatorDesc {| ResultDesc := AString d |})
          end
      end
  end.

(** [resp.F, err, errType = gc.statResult(..)], then the common end. *)
Definition intoResp (field : bytes -> RespStat) (r : bytes + (error * ClusterErrorType))
    : RespStat + (error * ClusterErrorType) :=
  match r with
  | inl b => inl (field b)
  | inr failure => inr failure
  end.

Definition getLocalStatResp (gc : GatewayCluster) (reqStat : ReqStat)
    : RespStat + (error * ClusterErrorType) :=
  match ReqStat_FilterPipelineIndicatorNames reqStat with
  | Some f => intoResp onlyNames (statResult gc (OfPipelineIndicatorNames f))
  | None =>
  match ReqStat_FilterPipelineIndicatorValue reqStat with
  | Some f => intoResp onlyValue (statResult gc (OfPipelineIndicatorValue f))
  | None =>
  match ReqStat_FilterPipelineIndicatorDesc reqStat with
  | Some f => intoResp onlyDesc (statResult gc (OfPipelineIndicatorDesc f))
  | None =>
  match ReqStat_FilterPluginIndicatorNames reqStat with
  | Some f => intoResp onlyNames (statResult gc (OfPluginIndicatorNames f))
  | None =>
  match ReqStat_FilterPluginIndicatorValue reqStat with
  | Some f => intoResp onlyValue (statResult gc (OfPluginIndicatorValue f))
  | None =>
  match ReqStat_FilterPluginIndicatorDesc reqStat with
  | Some f => intoResp onlyDesc (statResult gc (OfPluginIndicatorDesc f))
  | None =>
  match ReqStat_FilterTaskIndicatorNames reqStat with
  | Some f => intoResp onlyNames (statResult gc (OfTaskIndicatorNames f))
  | None =>
  match ReqStat_FilterTaskIndicatorValue reqStat with
  | Some f => intoResp onlyValue (statResult gc (OfTaskIndicatorValue f))
  | None =>
  match ReqStat_FilterTaskIndicatorDesc reqStat with
  | Some f => intoResp onlyDesc (statResult gc (OfTaskIndicatorDesc f))
  | None => inl (onlyNames nil_bytes)
  end end end end end end end end end.

(** ** The two handlers *)

Definition handleStatRelay (gc : GatewayCluster) (req : RequestEvent) : list event :=
  match RequestPayload req with
  | [] => []
  | _ :: body =>
      match unpackReqStat body with
      | inr (err, errType) => respondStatErr req errType err
      | inl reqStat =>
          match getLocalStatResp gc reqStat with
          | inr (err, errType) => respondStatErr req errType err
          | inl resp => respondStat req (Some resp)
          end
      end
  end.

(** [membersRespBook[memberName] = nil] for every requested member. *)
Definition newRespBook (requestMemberNames : list string) : gmap string (list byte) :=
  fold_left (fun book memberName => <[memberName := []]> book) requestMemberNames ∅.

(** The loop over the response book: empty payloads, payloads that do not
    unpack and partials that carry an error are passed over. *)
Fixpoint validResps (book : list (string * list byte)) : list RespStat :=
  match book with
  | [] => []
  | (_, payload) :: rest =>
      match payload with
      | [] => validResps rest
      | _ :: body =>
          match Unpack_RespStat body with
          | inr _ => validResps rest
          | inl resp =>
              if notNil (Err resp) then validResps rest else resp :: validResps rest
          end
      end
  end.

Definition handleStat (gc : GatewayCluster) (req : RequestEvent) : list event :=
  match RequestPayload req with
  | [] => []
  | _ :: body =>
      match unpackReqStat body with
      | inr (err, errType) => respondStatErr req errType err
      | inl reqStat =>
          match getLocalStatResp gc reqStat with
          | inr (err, errType) => respondStatErr req errType err
          | inl localResp =>
              let requestMembers := restAliveMembersInSameGroup gc in
              let requestMemberNames := map NodeName requestMembers in
              let requestParam :=
                {| TargetNodeNames := requestMemberNames;
                   TargetNodeTags := {[ groupTagKey := localGroupName gc ]};
                   RequestParam_Timeout := Timeout reqStat;
                   ResponseRelayCount := 1 |} in
              let requestName := RequestName req ++ "_relay" in
              let requestPayload := statRelayMessage :: body in
              Request requestName requestPayload requestParam ::
              match cluster_Request gc requestName requestPayload requestParam with
              | inr err => respondRetrieveErr req InternalServerError err
              | inl future =>
                  let membersRespBook :=
                    recordResp gc requestName future (newRespBook requestMemberNames) in
                  let validRespList := localResp :: validResps membersRespBook in
                  match aggregateStatResponses reqStat validRespList with
                  | Panics => [Panic]
                  | Returns ret =>
                      if notNil ret then
                        respondRetrieveErr req InternalServerError
                          "aggreate statistics for cluster memebers failed"
                      else respondStat req ret
                  end
              end
          end
      end
  end.

(** ** The caller's side *)

(** The payload [issueStat] hands back for the filter's facet. *)
Definition facetOf (filter : Filter) (resp : RespStat) : bytes :=
  match filter with
  | OfPipelineIndicatorNames _ => Names resp
  | OfPipelineIndicatorValue _ => Value resp
  | OfPipelineIndicatorDesc _ => Desc resp
  | OfPluginIndicatorNames _ => Names resp
  | OfPluginIndicatorValue _ => Value resp
  | OfPluginIndicatorDesc _ => Desc resp
  | OfTaskIndicatorNames _ => Names resp
  | OfTaskIndicatorValue _ => Value resp
  | OfTaskIndicatorDesc _ => Desc resp
  end.

(** [ret == nil || len(ret) == 0]. *)
Definition noBytes (b : bytes) : bool :=
  match b with
  | nil_bytes | junk [] => true
  | _ => false
  end.

(** [issueStat]: the requests it issues and what it returns. The filter
    is one of the nine types, so the default cases of its switches do not
    arise. Messages built with [%d] or [%#v] keep their fixed words and
    the error text. *)
Definition issueStat (gc : GatewayCluster) (rv : RangeVar) (rand_Int : nat)
    (group : string) (timeout : Z) (requestName : string) (filter : Filter)
    : list event * outcome (bytes + ClusterError) :=
  let req := newReqStat timeout filter in
  match PackWithHeader_ReqStat req statMessage with
  | inr err =>
      ([], Returns (inr (newClusterError ("pack request failed: " ++ err) InternalServerError)))
  | inl requestPayload =>
      match chooseMemberToAggregateStat gc rv rand_Int group with
      | Panics => ([Panic], Panics)
      | Returns (inr err) =>
          ([], Returns (inr (newClusterError
                  ("choose member to aggregate statistics failed: " ++ err)
                  InternalServerError)))
      | Returns (inl targetMember) =>
          let requestParam :=
            {| TargetNodeNames := [NodeName targetMember];
               TargetNodeTags :=
                 <[ modeTagKey := tag (NodeTags targetMember) modeTagKey ]>
                   {[ groupTagKey := group ]};
               RequestParam_Timeout := timeout;
               ResponseRelayCount := 1 |} in
          let issued := [Request requestName requestPayload requestParam] in
          match cluster_Request gc requestName requestPayload requestParam with
          | inr err =>
              (issued, Returns (inr (newClusterError
                  ("issue statistics aggregation failed: " ++ err) InternalServerError)))
          | inl future =>
              if stopChan gc then
                (issued, Returns (inr (newClusterError
                    "the member gone during issuing statistics aggregation"
                    IssueMemberGoneError)))
              else
                match future with
                | [] =>
                    (issued, Returns (inr (newClusterError
                        "issue statistics aggregation timeout" TimeoutError)))
                | memberResp :: _ =>
                    match Payload memberResp with
                    | [] =>
                        (issued, Returns (inr (newClusterError
                            "issue statistics aggregation responds empty response"
                            InternalServerError)))
                    | _ :: body =>
                        match Unpack_RespStat body with
                        | inr err =>
                            (issued, Returns (inr (newClusterError
                                ("unpack statistics aggregation response failed: " ++ err)
                                InternalServerError)))
                        | inl resp =>
                            match Err resp with
                            | Some e => (issued, Returns (inr e))
                            | None =>
                                let ret := facetOf filter resp in
                                if noBytes ret then
                                  (issued, Returns (inr (newClusterError
                                      "issue statistics aggregation responds invalid result"
                                      InternalServerError)))
                                else (issued, Returns (inl ret))
                            end
                        end
                    end
                end
          end
      end
  end.

End Gateway.

(** ** Notions used to state the properties *)

(** The three facets and the three scopes of a filter. *)
Inductive Facet := FacetNames | FacetValue | FacetDesc.
Inductive Scope := ScopePipeline | ScopePlugin | ScopeTask.

Definition filterFacet (filter : Filter) : Facet :=
  match filter with
  | OfPipelineIndicatorNames _ | OfPluginIndicatorNames _ | OfTaskIndicatorNames _ => FacetNames
  | OfPipelineIndicatorValue _ | OfPluginIndicatorValue _ | OfTaskIndicatorValue _ => FacetValue
  | OfPipelineIndicatorDesc _ | OfPluginIndicatorDesc _ | OfTaskIndicatorDesc _ => FacetDesc
  end.

Definition filterScope (filter : Filter) : Scope :=
  match filter with
  | OfPipelineIndicatorNames _ | OfPipelineIndicatorValue _ | OfPipelineIndicatorDesc _ =>
      ScopePipeline
  | OfPluginIndicatorNames _ | OfPluginIndicatorValue _ | OfPluginIndicatorDesc _ =>
      ScopePlugin
  | OfTaskIndicatorNames _ | OfTaskIndicatorValue _ | OfTaskIndicatorDesc _ => ScopeTask
  end.

(** The selectors a filter must carry: the pipeline name, the plugin name
    in the plugin scope, the indicator name for values and descriptions. *)
Definition requiredSelectors (filter : Filter) : list string :=
  match filter with
  | OfPipelineIndicatorNames f => [PipelineNames_PipelineName f]
  | OfPipelineIndicatorValue f => [PipelineValue_PipelineName f; PipelineValue_IndicatorName f]
  | OfPipelineIndicatorDesc f => [PipelineDesc_PipelineName f; PipelineDesc_IndicatorName f]
  | OfPluginIndicatorNames f => [PluginNames_PipelineName f; PluginNames_PluginName f]
  | OfPluginIndicatorValue f =>
      [PluginValue_PipelineName f; PluginValue_PluginName f; PluginValue_IndicatorName f]
  | OfPluginIndicatorDesc f =>
      [PluginDesc_PipelineName f; PluginDesc_PluginName f; PluginDesc_IndicatorName f]
  | OfTaskIndicatorNames f => [TaskNames_PipelineName f]
  | OfTaskIndicatorValue f => [TaskValue_PipelineName f; TaskValue_IndicatorName f]
  | OfTaskIndicatorDesc f => [TaskDesc_PipelineName f; TaskDesc_IndicatorName f]
  end.

(** A request fails selector validation when the filter it carries lacks a
    required selector, or when it carries no filter at all. *)
Inductive failsValidation : ReqStat -> Prop :=
| MissingSelector (timeout : Z) (filter : Filter) :
    In "" (requiredSelectors filter) -> failsValidation (newReqStat timeout filter)
| NoFilter (timeout : Z) : failsValidation (emptyReqStat timeout).

(** The indicator name of a value filter. *)
Definition valueIndicatorName (filter : Filter) : option string :=
  match filter with
  | OfPipelineIndicatorValue f => Some (PipelineValue_IndicatorName f)
  | OfPluginIndicatorValue f => Some (PluginValue_IndicatorName f)
  | OfTaskIndicatorValue f => Some (TaskValue_IndicatorName f)
  | _ => None
  end.

(** The catalog: the reducer of an indicator in a scope, if it has one. *)
Definition lookupAggregator (scope : Scope) (indicatorName : string) : option stateAggregator :=
  match scope with
  | ScopePipeline => pipelineIndicatorAggregateMap !! indicatorName
  | ScopePlugin => pluginIndicatorAggregateMap !! indicatorName
  | ScopeTask => taskIndicatorAggregateMap !! indicatorName
  end.

(** What a partial contributes to a description or a value: the decoded
    field, when the payload decodes and the field is not nil. *)
Definition decodedDesc (resp : RespStat) : option any :=
  match json_Unmarshal_ResultStatIndicatorDesc (Desc resp) with
  | Some r => if any_is_nil (ResultDesc r) then None else Some (ResultDesc r)
  | None => None
  end.

Definition decodedValue (resp : RespStat) : option any :=
  match json_Unmarshal_ResultStatIndicatorValue (Value resp) with
  | Some r => if any_is_nil (ResultValue r) then None else Some (ResultValue r)
  | None => None
  end.

Definition decodedNames (resp : RespStat) : option (list string) :=
  match json_Unmarshal_ResultStatIndicatorNames (Names resp) with
  | Some r => Some (ResultNames r)
  | None => None
  end.


(** The increasing order of [sort.Strings]. *)
Definition string_le (a b : string) : Prop := String.leb a b = true.

(** The state of the names loop is sound when the list has no duplicates
    and [memory] holds exactly its elements. *)
Definition namesInv (st : list string * gset string) : Prop :=
  NoDup (fst st) /\ forall name, name ∈ snd st <-> name ∈ fst st.

(** A value that [json.Marshal] accepts. *)
Definition encodable (a : any) : Prop := is_Some (encode_any a).

(** The members the selection loop keeps: alive and in the group, and
    of these the ones in read mode and the others. *)
Definition inGroupAlive `{Env} (group : string) (member : Member) : bool :=
  String.eqb (tag (NodeTags member) groupTagKey) group
  && MemberStatus_eqb (Status member) MemberAlive.

Definition aliveReadMember `{Env} (group : string) (member : Member) : bool :=
  inGroupAlive group member
  && String.eqb (tag (NodeTags member) modeTagKey) ReadMode_String.

Definition aliveWriteMember `{Env} (group : string) (member : Member) : bool :=
  inGroupAlive group member
  && negb (String.eqb (tag (NodeTags member) modeTagKey) ReadMode_String).

(** The state of the selection loop with one variable per iteration:
    after the members before [i] the pointers kept are below [i] and
    lead to the alive read-mode and write-mode members seen, in order. *)
Definition keptPerIteration `{Env} (group : string) (i : nat) (st : selection)
    (seen : list Member) : Prop :=
  Forall2 (fun p member => p < i /\ heap st !! p = Some member)
    (readMembers st) (List.filter (aliveReadMember group) seen)
  /\ Forall2 (fun p member => p < i /\ heap st !! p = Some member)
       (writeMembers st) (List.filter (aliveWriteMember group) seen).

(** The state of the selection loop with one variable for the loop:
    every pointer kept is the address of the one variable, which holds
    the member seen last. *)
Definition keptPerLoop `{Env} (group : string) (st : selection) (seen : list Member) : Prop :=
  Forall (fun p => p = 0) (readMembers st)
  /\ Forall (fun p => p = 0) (writeMembers st)
  /\ (seen <> [] -> heap st !! 0 = last seen)
  /\ length (readMembers st) = length (List.filter (aliveReadMember group) seen)
  /\ length (writeMembers st) = length (List.filter (aliveWriteMember group) seen).

(** The requests among the events of a run. *)
Definition isRequest (e : event) : bool :=
  match e with Request _ _ _ => true | _ => false end.

Definition outbound (trace : list event) : list event := List.filter isRequest trace.

Definition sum_Z (l : list Z) : Z := fold_right Z.add 0%Z l.

(** Whether a list has an element. *)
Definition decoded_some {V : Type} (l : list V) : bool :=
  match l with [] => false | _ => true end.

(** Which scalars a reducer of the given type decodes. *)
Definition decodesAs (typ : any) (value : bytes) : bool :=
  match typ with
  | AFloat64 _ => bool_decide (is_Some (json_Unmarshal_float64 value))
  | AUint64 _ => bool_decide (is_Some (json_Unmarshal_uint64 value))
  | AInt64 _ => bool_decide (is_Some (json_Unmarshal_int64 value))
  | _ => false
  end.

(** ** A small cluster to run the definitions on *)

Definition num (z : Z) : bytes := text (JNum (Marshal_int z)).

Definition namesOf (l : list string) : bytes :=
  text (JObj [("Names", JArr (map JStr l))]).
Definition descOf (s : string) : bytes := text (JObj [("Desc", JStr s)]).
Definition valueOf (d : json) : bytes := text (JObj [("Value", d)]).

Definition pipelineNames (PipelineName : string) : Filter :=
  OfPipelineIndicatorNames {| PipelineNames_PipelineName := PipelineName |}.
Definition pipelineValue (PipelineName IndicatorName : string) : Filter :=
  OfPipelineIndicatorValue {| PipelineValue_PipelineName := PipelineName;
                              PipelineValue_IndicatorName := IndicatorName |}.
Definition pipelineDesc (PipelineName IndicatorName : string) : Filter :=
  OfPipelineIndicatorDesc {| PipelineDesc_PipelineName := PipelineName;
                             PipelineDesc_IndicatorName := IndicatorName |}.
Definition taskValue (PipelineName IndicatorName : string) : Filter :=
  OfTaskIndicatorValue {| TaskValue_PipelineName := PipelineName;
                          TaskValue_IndicatorName := IndicatorName |}.

(** A codec over one-byte bodies, enough to drive the handlers: body 1 is
    a names query on pipeline [p1], body 2 the same query without its
    pipeline name, body 3 a names query on the unknown pipeline [p9],
    body 4 a value query on [p1]; response body 1 is a partial with the
    names [a] and [c]. *)
Definition sampleUnpackReqStat (payload : list byte) : ReqStat + error :=
  match payload with
  | [x01] => inl (newReqStat 1000 (pipelineNames "p1"))
  | [x02] => inl (newReqStat 1000 (pipelineNames ""))
  | [x03] => inl (newReqStat 1000 (pipelineNames "p9"))
  | [x04] => inl (newReqStat 1000 (pipelineValue "p1" "EXECUTION_TIME_MAX_ALL"))
  | _ => inr "unexpected EOF"
  end.

Definition sampleUnpackRespStat (payload : list byte) : RespStat + error :=
  match payload with
  | [x01] => inl (onlyNames (namesOf ["a"; "c"]))
  | _ => inr "unexpected EOF"
  end.

Definition samplePackRespStat (resp : option RespStat) (header : byte) : list byte + error :=
  match resp with
  | None => inl [header; x00]
  | Some r =>
      match Err r with
      | Some _ => inl [header; xff]
      | None => inl [header; x01]
      end
  end.

#[local] Instance sampleEnv : Env := {|
  groupTagKey := "group";
  modeTagKey := "mode";
  ReadMode_String := "read";
  statMessage := x0a;
  statRelayMessage := x0b;
  Unpack_ReqStat := sampleUnpackReqStat;
  Unpack_RespStat := sampleUnpackRespStat;
  PackWithHeader_ReqStat := fun _ header => inl [header; x01];
  PackWithHeader_RespStat := samplePackRespStat;
  respondRetrieveErr := fun _ _ _ => [Respond [xee]]
|}.

Definition sampleMember (name mode : string) (status : MemberStatus) : Member :=
  {| NodeName := name;
     NodeTags := <[ "mode" := mode ]> {[ "group" := "g" ]};
     Status := status |}.

Definition n1 : Member := sampleMember "n1" "read" MemberAlive.
Definition n2 : Member := sampleMember "n2" "write" MemberAlive.
Definition n3 : Member := sampleMember "n3" "write" MemberAlive.

Definition sampleStat : PipelineStatistics :=
  {| PipelineIndicatorNames := ["b"; "a"];
     PipelineIndicatorValue :=
       fun IndicatorName =>
         if String.eqb IndicatorName "EXECUTION_COUNT_ALL" then inl (AInt64 17)
         else inl (AString "n/a");
     PipelineIndicatorDescription := fun _ => inl "";
     PluginIndicatorNames := fun _ => [];
     PluginIndicatorValue := fun _ _ => inr "not found";
     PluginIndicatorDescription := fun _ _ => inr "not found";
     TaskIndicatorNames := [];
     TaskIndicatorValue := fun _ => inr "not found";
     TaskIndicatorDescription := fun _ => inr "not found" |}.

(** Node [n1] with peers [n2] and [n3]; [n2] answers the relay. *)
Definition sampleCluster : GatewayCluster :=
  {| cluster_Members := [n1; n2; n3];
     cluster_Request := fun _ _ _ => inl [{| ResponseNodeName := "n2"; Payload := [x0b; x01] |}];
     stopChan := false;
     StatRegistry_GetPipelineStatistics :=
       fun PipelineName => if String.eqb PipelineName "p1" then Some sampleStat else None;
     restAliveMembersInSameGroup := [n2; n3];
     localGroupName := "g";
     recordResp := fun _ future _ => [("n2", [x0b; x01]); ("n3", [])] |}.

Definition sampleRequest (payload : list byte) : RequestEvent :=
  {| RequestName := "stat"; RequestNodeName := "admin"; RequestPayload := payload |}.

(** ** Notions for the further properties *)

(** The pipeline a filter names. *)
Definition filterPipelineName (filter : Filter) : string :=
  match filter with
  | OfPipelineIndicatorNames f => PipelineNames_PipelineName f
  | OfPipelineIndicatorValue f => PipelineValue_PipelineName f
  | OfPipelineIndicatorDesc f => PipelineDesc_PipelineName f
  | OfPluginIndicatorNames f => PluginNames_PipelineName f
  | OfPluginIndicatorValue f => PluginValue_PipelineName f
  | OfPluginIndicatorDesc f => PluginDesc_PipelineName f
  | OfTaskIndicatorNames f => TaskNames_PipelineName f
  | OfTaskIndicatorValue f => TaskValue_PipelineName f
  | OfTaskIndicatorDesc f => TaskDesc_PipelineName f
  end.

(** The indicator names the registry lists for a names filter. *)
Definition registryNames (stat : PipelineStatistics) (filter : Filter) : list string :=
  match filter with
  | OfPipelineIndicatorNames _ => PipelineIndicatorNames stat
  | OfPluginIndicatorNames f => PluginIndicatorNames stat (PluginNames_PluginName f)
  | OfTaskIndicatorNames _ => TaskIndicatorNames stat
  | _ => []
  end.

(** A name that some partial of the list carries in names that decode. *)
Definition carriesName (respStats : list RespStat) (name : string) : Prop :=
  exists resp l, In resp respStats /\ decodedNames resp = Some l /\ In name l.

(** A book entry the loop of [handleStat] passes over: no payload, a
    payload that does not unpack, or a partial that carries an error. *)
Definition passedOver `{Env} (payload : list byte) : Prop :=
  match payload with
  | [] => True
  | _ :: body =>
      match Unpack_RespStat body with
      | inr _ => True
      | inl resp => Err resp <> None
      end
  end.

(** The shape of a maximum or minimum reducer's result: nothing decodes and the
    result is nil, or the result is the encoding of a decoded value [m]
    that stands in relation [R] to every decoded value, and reads back as
    [m]. *)
Definition picks (decode : bytes -> option Z) (R : Z -> Z -> Prop)
    (result : bytes) (values : list bytes) : Prop :=
  (omap decode values = [] /\ result = nil_bytes)
  \/ exists m,
       result = num m /\ decode result = Some m
       /\ In m (omap decode values) /\ Forall (R m) (omap decode values).

(** A request with two filters set: a pipeline value filter with its
    selectors and a task names filter without its pipeline name; and a
    codec that unpacks every payload to it. *)
Definition twoFilters : ReqStat :=
  {| Timeout := 1000;
     ReqStat_FilterPipelineIndicatorNames := None;
     ReqStat_FilterPipelineIndicatorValue :=
       Some {| PipelineValue_PipelineName := "p1";
               PipelineValue_IndicatorName := "EXECUTION_COUNT_ALL" |};
     ReqStat_FilterPipelineIndicatorDesc := None;
     ReqStat_FilterPluginIndicatorNames := None;
     ReqStat_FilterPluginIndicatorValue := None;
     ReqStat_FilterPluginIndicatorDesc := None;
     ReqStat_FilterTaskIndicatorNames := Some {| TaskNames_PipelineName := "" |};
     ReqStat_FilterTaskIndicatorValue := None;
     ReqStat_FilterTaskIndicatorDesc := None |}.

Definition twoFiltersEnv : Env :=
  {| groupTagKey := "group";
     modeTagKey := "mode";
     ReadMode_String := "read";
     statMessage := x0a;
     statRelayMessage := x0b;
     Unpack_ReqStat := fun _ => inl twoFilters;
     Unpack_RespStat := sampleUnpackRespStat;
     PackWithHeader_ReqStat := fun _ header => inl [header; x01];
     PackWithHeader_RespStat := samplePackRespStat;
     respondRetrieveErr := fun _ _ _ => [Respond [xee]] |}.

(** * Properties *)

(** ** Request validation *)

Lemma emptyString_spec (s : string) : emptyString s = true <-> s = "".
Proof.
  unfold emptyString. destruct s; simpl; split; intros E; try reflexivity; discriminate.
Qed.

Ltac split_selectors :=
  repeat match goal with
         | |- context [emptyString ?s] => destruct (emptyString s) eqn:?
         end.

(** Every failure of the switch has the kind [InternalServerError]. *)
Lemma checkSelectors_kind (reqStat : ReqStat) (msg : error) (typ : ClusterErrorType) :
  checkSelectors reqStat = Some (msg, typ) -> typ = InternalServerError.
Proof.
  unfold checkSelectors.
  repeat match goal with
         | |- context [match ?o with Some _ => _ | None => _ end] => destruct o
         end;
    split_selectors; intros E; inversion E; reflexivity.
Qed.

Lemma checkSelectors_fails (reqStat : ReqStat) :
  failsValidation reqStat -> exists msg, checkSelectors reqStat = Some (msg, InternalServerError).
Proof.
  intros [timeout filter Hin | timeout]; [| eexists; reflexivity].
  assert (Hsome : exists failure, checkSelectors (newReqStat timeout filter) = Some failure).
  { destruct filter as [f|f|f|f|f|f|f|f|f]; destruct f; simpl in Hin;
      unfold checkSelectors; simpl; split_selectors; eauto;
      repeat match goal with
             | H : _ \/ _ |- _ => destruct H
             | H : False |- _ => destruct H
             | H : ?s = "", E : emptyString ?s = false |- _ =>
                 rewrite H in E; discriminate E
             end. }
  destruct Hsome as [[msg typ] E]. exists msg.
  rewrite E. f_equal. f_equal. eapply checkSelectors_kind; eassumption.
Qed.

Section Facts.
Context `{Env}.

(** C3, as the code has it: an unpacked request that fails selector
    validation (a required selector of its filter is empty, or it carries
    no filter) makes [unpackReqStat] fail with the kind
    [InternalServerError]. *)
Theorem unpackReqStat_selector_failure (payload : list byte) (reqStat : ReqStat) :
  Unpack_ReqStat payload = inl reqStat ->
  failsValidation reqStat ->
  exists err, unpackReqStat payload = inr (err, InternalServerError).
Proof.
  intros Hunpack Hfails.
  destruct (checkSelectors_fails reqStat Hfails) as [msg E].
  exists msg. unfold unpackReqStat. rewrite Hunpack, E. reflexivity.
Qed.

(** [WrongMessageFormatError] is the kind of the payloads that do not
    unpack, and of no other. *)
Lemma unpackReqStat_WrongMessageFormat (payload : list byte) (msg : error) :
  unpackReqStat payload = inr (msg, WrongMessageFormatError) ->
  exists err, Unpack_ReqStat payload = inr err.
Proof.
  unfold unpackReqStat. destruct (Unpack_ReqStat payload) as [reqStat | err]; [| eauto].
  destruct (checkSelectors reqStat) as [[m typ] |] eqn:E; [| discriminate].
  intros E'. inversion E'; subst.
  apply checkSelectors_kind in E. discriminate E.
Qed.

Lemma unpackReqStat_valid (payload : list byte) (reqStat : ReqStat) :
  unpackReqStat payload = inl reqStat ->
  Unpack_ReqStat payload = inl reqStat /\ checkSelectors reqStat = None.
Proof.
  unfold unpackReqStat. destruct (Unpack_ReqStat payload) as [q | err]; [| discriminate].
  destruct (checkSelectors q) eqn:E; [discriminate |].
  intros E'. inversion E'; subst. auto.
Qed.

(** ** The handlers *)

Lemma outbound_respondStat (req : RequestEvent) (resp : option RespStat) :
  outbound (respondStat req resp) = [].
Proof.
  unfold respondStat. destruct (RequestPayload req) as [| header body]; [reflexivity |].
  destruct (PackWithHeader_RespStat resp header); reflexivity.
Qed.

Lemma outbound_respondStatErr (req : RequestEvent) (typ : ClusterErrorType) (msg : string) :
  outbound (respondStatErr req typ msg) = [].
Proof. apply outbound_respondStat. Qed.

Lemma respondStat_once (req : RequestEvent) (resp : option RespStat) :
  respondStat req resp = [] \/ exists respBuff, respondStat req resp = [Respond respBuff].
Proof.
  unfold respondStat. destruct (RequestPayload req) as [| header body]; [auto |].
  destruct (PackWithHeader_RespStat resp header); eauto.
Qed.

(** C9: the relay handler issues no request. Among the events of any of
    its runs there is none of [gc.cluster.Request]: a run does nothing, or
    sends one response. *)
Theorem handleStatRelay_no_request (gc : GatewayCluster) (req : RequestEvent) :
  outbound (handleStatRelay gc req) = []
  /\ (handleStatRelay gc req = []
      \/ exists respBuff, handleStatRelay gc req = [Respond respBuff]).
Proof.
  unfold handleStatRelay. destruct (RequestPayload req) as [| header body]; [auto |].
  destruct (unpackReqStat body) as [reqStat | [err errType]].
  - destruct (getLocalStatResp gc reqStat) as [resp | [err errType]].
    + split; [apply outbound_respondStat | apply respondStat_once].
    + split; [apply outbound_respondStatErr | apply respondStat_once].
  - split; [apply outbound_respondStatErr | apply respondStat_once].
Qed.

(** X17: the entry handler does issue one, once the local partial is
    there: the first event of the run is a request named after the
    incoming one with [_relay] appended, whose payload is the incoming
    body under the relay header, sent to the other living members of the
    group with the timeout of the query. *)
Lemma handleStat_requests (gc : GatewayCluster) (req : RequestEvent)
    (header : byte) (body : list byte) (reqStat : ReqStat) (localResp : RespStat) :
  RequestPayload req = header :: body ->
  unpackReqStat body = inl reqStat ->
  getLocalStatResp gc reqStat = inl localResp ->
  exists requestParam rest,
    handleStat gc req =
      Request (RequestName req ++ "_relay") (statRelayMessage :: body) requestParam :: rest
    /\ TargetNodeNames requestParam = map NodeName (restAliveMembersInSameGroup gc)
    /\ RequestParam_Timeout requestParam = Timeout reqStat.
Proof.
  intros Hp Hu Hl. unfold handleStat. rewrite Hp, Hu, Hl.
  eexists. eexists. split; [reflexivity |]. split; reflexivity.
Qed.

(** C10: a request whose payload is empty is left without any response:
    both handlers, and [respondStat] itself, do nothing at all. *)
Theorem empty_payload_no_response (gc : GatewayCluster) (req : RequestEvent)
    (resp : option RespStat) :
  RequestPayload req = [] ->
  handleStat gc req = [] /\ handleStatRelay gc req = [] /\ respondStat req resp = [].
Proof.
  intros E. unfold handleStat, handleStatRelay, respondStat. rewrite E. auto.
Qed.

(** C4, as the code has it: when the local resolver fails, the entry
    handler answers with that failure, kind and message, and issues no
    request to the peers. *)
Theorem handleStat_local_failure (gc : GatewayCluster) (req : RequestEvent)
    (header : byte) (body : list byte) (reqStat : ReqStat)
    (err : error) (errType : ClusterErrorType) :
  RequestPayload req = header :: body ->
  unpackReqStat body = inl reqStat ->
  getLocalStatResp gc reqStat = inr (err, errType) ->
  handleStat gc req = respondStatErr req errType err
  /\ outbound (handleStat gc req) = [].
Proof.
  intros Hp Hu Hl. unfold handleStat. rewrite Hp, Hu, Hl.
  split; [reflexivity | apply outbound_respondStatErr].
Qed.

(** What the entry handler does with the combiner's result: it answers
    with [respondRetrieveErr] when the aggregate is there, and hands the
    nil pointer to [respondStat] when it is not. *)
Lemma handleStat_aggregate (gc : GatewayCluster) (req : RequestEvent)
    (header : byte) (body : list byte) (reqStat : ReqStat) (localResp : RespStat)
    (future : Future) (ret : option RespStat) :
  let requestName := RequestName req ++ "_relay" in
  let requestPayload := statRelayMessage :: body in
  let requestParam :=
    {| TargetNodeNames := map NodeName (restAliveMembersInSameGroup gc);
       TargetNodeTags := {[ groupTagKey := localGroupName gc ]};
       RequestParam_Timeout := Timeout reqStat;
       ResponseRelayCount := 1 |} in
  let book := recordResp gc requestName future
                (newRespBook (map NodeName (restAliveMembersInSameGroup gc))) in
  RequestPayload req = header :: body ->
  unpackReqStat body = inl reqStat ->
  getLocalStatResp gc reqStat = inl localResp ->
  cluster_Request gc requestName requestPayload requestParam = inl future ->
  aggregateStatResponses reqStat (localResp :: validResps book) = Returns ret ->
  handleStat gc req =
    Request requestName requestPayload requestParam ::
    match ret with
    | Some _ =>
        respondRetrieveErr req InternalServerError
          "aggreate statistics for cluster memebers failed"
    | None => respondStat req None
    end.
Proof.
  intros requestName requestPayload requestParam book Hp Hu Hl Hr Ha.
  unfold handleStat. rewrite Hp, Hu, Hl. cbv zeta.
  fold requestName requestPayload requestParam. rewrite Hr.
  fold book. rewrite Ha. destruct ret; reflexivity.
Qed.

End Facts.

(** The sample request with an empty pipeline name is unpacked, fails
    validation, and is not answered with [WrongMessageFormatError]. *)
Lemma unpackReqStat_selector_failure_witness :
  Unpack_ReqStat [x02] = inl (newReqStat 1000 (pipelineNames ""))
  /\ failsValidation (newReqStat 1000 (pipelineNames ""))
  /\ exists err, unpackReqStat [x02] = inr (err, InternalServerError).
Proof.
  assert (Hfails : failsValidation (newReqStat 1000 (pipelineNames ""))).
  { apply MissingSelector. simpl. auto. }
  split; [reflexivity |]. split; [exact Hfails |].
  apply (unpackReqStat_selector_failure [x02] (newReqStat 1000 (pipelineNames "")));
    [reflexivity | exact Hfails].
Defined.

Lemma selector_failure_not_WrongMessageFormat :
  ~ (forall (E : Env) (payload : list byte) (reqStat : ReqStat),
       Unpack_ReqStat payload = inl reqStat ->
       failsValidation reqStat ->
       exists err, unpackReqStat payload = inr (err, WrongMessageFormatError)).
Proof.
  intros claim.
  destruct (claim sampleEnv [x02] (newReqStat 1000 (pipelineNames ""))) as [err E].
  - reflexivity.
  - apply MissingSelector. simpl. auto.
  - vm_compute in E. discriminate E.
Qed.

Lemma empty_payload_no_response_witness :
  RequestPayload (sampleRequest []) = []
  /\ handleStat sampleCluster (sampleRequest []) = []
  /\ handleStatRelay sampleCluster (sampleRequest []) = []
  /\ respondStat (sampleRequest []) None = [].
Proof.
  split; [reflexivity |].
  apply (empty_payload_no_response sampleCluster (sampleRequest []) None). reflexivity.
Defined.

Lemma handleStat_local_failure_witness :
  RequestPayload (sampleRequest [x0a; x03]) = [x0a; x03]
  /\ unpackReqStat [x03] = inl (newReqStat 1000 (pipelineNames "p9"))
  /\ getLocalStatResp sampleCluster (newReqStat 1000 (pipelineNames "p9"))
     = inr ("pipeline p9 statistics not found", PipelineStatNotFoundError)
  /\ handleStat sampleCluster (sampleRequest [x0a; x03])
     = respondStatErr (sampleRequest [x0a; x03]) PipelineStatNotFoundError
         "pipeline p9 statistics not found"
  /\ outbound (handleStat sampleCluster (sampleRequest [x0a; x03])) = [].
Proof.
  split; [reflexivity |]. split; [reflexivity |]. split; [reflexivity |].
  apply (handleStat_local_failure sampleCluster (sampleRequest [x0a; x03]) x0a [x03]
           (newReqStat 1000 (pipelineNames "p9"))); reflexivity.
Defined.

(** With a failing local resolver and two alive peers the entry handler
    does not fan out. *)
Lemma local_failure_not_dropped :
  ~ (forall (E : Env) (gc : GatewayCluster) (req : RequestEvent)
            (header : byte) (body : list byte) (reqStat : ReqStat)
            (err : error) (errType : ClusterErrorType),
       RequestPayload req = header :: body ->
       unpackReqStat body = inl reqStat ->
       getLocalStatResp gc reqStat = inr (err, errType) ->
       outbound (handleStat gc req) <> []
       /\ handleStat gc req <> respondStatErr req errType err).
Proof.
  intros claim.
  destruct (claim sampleEnv sampleCluster (sampleRequest [x0a; x03]) x0a [x03]
              (newReqStat 1000 (pipelineNames "p9"))
              "pipeline p9 statistics not found" PipelineStatNotFoundError) as [Hout _];
    try reflexivity.
  apply Hout. reflexivity.
Qed.

(** C1 on the code: the entry handler on the sample names query. The
    local partial and the one of [n2] combine into an aggregate that is
    not nil, and the handler answers with the error of
    [respondRetrieveErr] instead of sending the aggregate. *)
Theorem handleStat_answers_error_on_aggregate :
  let req := sampleRequest [x0a; x01] in
  let reqStat := newReqStat 1000 (pipelineNames "p1") in
  let localResp := onlyNames (namesOf ["a"; "b"]) in
  let peerResp := onlyNames (namesOf ["a"; "c"]) in
  unpackReqStat [x01] = inl reqStat
  /\ getLocalStatResp sampleCluster reqStat = inl localResp
  /\ aggregateStatResponses reqStat [localResp; peerResp]
     = Returns (Some (onlyNames (namesOf ["a"; "b"; "c"])))
  /\ exists requestParam,
       handleStat sampleCluster req =
         Request "stat_relay" [x0b; x01] requestParam ::
         respondRetrieveErr req InternalServerError
           "aggreate statistics for cluster memebers failed".
Proof.
  repeat split; try reflexivity.
  eexists. reflexivity.
Qed.

(** The other half: on the sample value query the local value is not a
    number, the reducer has nothing to reduce, the aggregate is nil, and
    the handler hands the nil pointer to [respondStat]. *)
Example handleStat_nil_aggregate_example :
  let req := sampleRequest [x0a; x04] in
  let reqStat := newReqStat 1000 (pipelineValue "p1" "EXECUTION_TIME_MAX_ALL") in
  let localResp := onlyValue (valueOf (JStr "n/a")) in
  let peerResp := onlyNames (namesOf ["a"; "c"]) in
  getLocalStatResp sampleCluster reqStat = inl localResp
  /\ aggregateStatResponses reqStat [localResp; peerResp] = Returns None
  /\ exists requestParam,
       handleStat sampleCluster req =
         Request "stat_relay" [x0b; x04] requestParam :: respondStat req None.
Proof.
  repeat split; try reflexivity.
  eexists. reflexivity.
Qed.

(** A request that passed [unpackReqStat] never makes the combiner
    panic. *)
Lemma aggregate_returns_when_valid (reqStat : ReqStat) (respStats : list RespStat) :
  checkSelectors reqStat = None ->
  exists ret, aggregateStatResponses reqStat respStats = Returns ret.
Proof.
  unfold checkSelectors, aggregateStatResponses,
    pipelineValueCase, pluginValueCase, taskValueCase, valueCase, emptyString.
  destruct reqStat as [timeout pn pv pd gn gv gd tn tv td].
  cbn [ReqStat_FilterPipelineIndicatorNames ReqStat_FilterPipelineIndicatorValue
       ReqStat_FilterPipelineIndicatorDesc ReqStat_FilterPluginIndicatorNames
       ReqStat_FilterPluginIndicatorValue ReqStat_FilterPluginIndicatorDesc
       ReqStat_FilterTaskIndicatorNames ReqStat_FilterTaskIndicatorValue
       ReqStat_FilterTaskIndicatorDesc].
  destruct pn; [eauto |]. destruct gn; [eauto |]. destruct tn; [eauto |].
  destruct pd; [eauto |]. destruct gd; [eauto |]. destruct td; [eauto |].
  cbn [notNil orb].
  destruct pv as [f |].
  - cbn [notNil fmap option_fmap option_map String.length Nat.eqb bind_outcome].
    destruct (String.length (PipelineValue_PipelineName f) =? 0)%nat; [discriminate |].
    destruct (String.length (PipelineValue_IndicatorName f) =? 0)%nat eqn:E; [discriminate |].
    intros _. cbn [bind_outcome]. rewrite ?E. cbn [bind_outcome]. rewrite ?E. eauto.
  - destruct gv as [f |].
    + cbn [notNil fmap option_fmap option_map String.length Nat.eqb bind_outcome].
      destruct (String.length (PluginValue_PipelineName f) =? 0)%nat; [discriminate |].
      destruct (String.length (PluginValue_PluginName f) =? 0)%nat; [discriminate |].
      destruct (String.length (PluginValue_IndicatorName f) =? 0)%nat eqn:E; [discriminate |].
      intros _. cbn [bind_outcome]. rewrite ?E. eauto.
    + destruct tv as [f |]; cbn [notNil fmap option_fmap option_map String.length
                                 Nat.eqb bind_outcome]; eauto.
Qed.

(** ** The sum reducer *)

Lemma each_decoded_from {V A : Type} (decode : bytes -> option V) (step : A -> V -> A)
    (values : list bytes) (acc : A) (handledAny : bool) :
  fold_left
    (fun '(acc, handledAny) value =>
       match decode value with
       | None => (acc, handledAny)
       | Some v => (step acc v, true)
       end)
    values (acc, handledAny)
  = (fold_left step (omap decode values) acc,
     handledAny || decoded_some (omap decode values)).
Proof.
  revert acc handledAny. induction values as [| value values IH]; intros acc handledAny.
  - simpl. rewrite orb_false_r. reflexivity.
  - cbn [fold_left omap list_omap]. destruct (decode value) as [v |].
    + rewrite IH. cbn [fold_left decoded_some]. rewrite orb_true_r. reflexivity.
    + apply IH.
Qed.

(** The loop decodes what it can, in order, and tells whether there was
    anything. *)
Lemma each_decoded_spec {V A : Type} (decode : bytes -> option V) (step : A -> V -> A)
    (values : list bytes) (init : A) :
  each_decoded decode step values init
  = (fold_left step (omap decode values) init, decoded_some (omap decode values)).
Proof. unfold each_decoded. rewrite each_decoded_from. reflexivity. Qed.

Lemma omap_nil_iff {V : Type} (decode : bytes -> option V) (values : list bytes) :
  omap decode values = [] <-> Forall (fun value => decode value = None) values.
Proof.
  induction values as [| value values IH]; cbn [omap list_omap].
  - split; [constructor | reflexivity].
  - destruct (decode value) as [v |] eqn:E.
    + split; [discriminate |]. intros HF. inversion HF; subst. congruence.
    + rewrite IH. split.
      * intros HF. constructor; assumption.
      * intros HF. inversion HF; assumption.
Qed.

Lemma wrap_int64_add (a v : Z) : wrap_int64 (wrap_int64 a + v) = wrap_int64 (a + v).
Proof.
  unfold wrap_int64. f_equal.
  replace ((a + 2 ^ 63) mod 2 ^ 64 - 2 ^ 63 + v + 2 ^ 63)%Z
    with ((a + 2 ^ 63) mod 2 ^ 64 + v)%Z by ring.
  rewrite Zplus_mod_idemp_l. f_equal. ring.
Qed.

Lemma wrap_uint64_add (a v : Z) : wrap_uint64 (wrap_uint64 a + v) = wrap_uint64 (a + v).
Proof. unfold wrap_uint64. apply Zplus_mod_idemp_l. Qed.

(** Adding with a wrap after every step is adding in the integers and
    wrapping once. *)
Lemma sum_wrapped (wrap : Z -> Z) (vs : list Z) (a : Z) :
  (forall a v, wrap (wrap a + v)%Z = wrap (a + v)%Z) ->
  fold_left (fun sum v => wrap (sum + v)%Z) vs (wrap a) = wrap (a + sum_Z vs)%Z.
Proof.
  intros Hwrap. revert a. induction vs as [| v vs IH]; intros a; simpl.
  - f_equal. ring.
  - rewrite Hwrap, IH. f_equal. ring.
Qed.

Lemma sum_int64 (vs : list Z) :
  fold_left (fun sum v => wrap_int64 (sum + v)) vs 0%Z = wrap_int64 (sum_Z vs).
Proof. apply (sum_wrapped wrap_int64 vs 0%Z), wrap_int64_add. Qed.

Lemma sum_uint64 (vs : list Z) :
  fold_left (fun sum v => wrap_uint64 (sum + v)) vs 0%Z = wrap_uint64 (sum_Z vs).
Proof. apply (sum_wrapped wrap_uint64 vs 0%Z), wrap_uint64_add. Qed.

Lemma wrap_int64_range (z : Z) : (MinInt64 <= wrap_int64 z <= MaxInt64)%Z.
Proof.
  unfold wrap_int64, MinInt64, MaxInt64.
  pose proof (Z.mod_pos_bound (z + 2 ^ 63) (2 ^ 64) ltac:(lia)). lia.
Qed.

Lemma wrap_int64_id (z : Z) : (MinInt64 <= z <= MaxInt64)%Z -> wrap_int64 z = z.
Proof.
  unfold wrap_int64, MinInt64, MaxInt64. intros Hz.
  rewrite Z.mod_small by lia. ring.
Qed.

Lemma json_Marshal_float64_None (f : float64) :
  json_Marshal_float64 f = None <-> is_finite f = false.
Proof.
  unfold json_Marshal_float64, Marshal_float64.
  destruct (is_finite f).
  - destruct (float64_integral f) as [[s n] |]; [destruct (n <? 10 ^ 21)%N |];
      split; discriminate.
  - split; reflexivity.
Qed.

Lemma or_nil_Marshal_float64 (f : float64) :
  or_nil (json_Marshal_float64 f) = nil_bytes <-> is_finite f = false.
Proof.
  rewrite <- json_Marshal_float64_None.
  unfold json_Marshal_float64. destruct (Marshal_float64 f); simpl; split; congruence.
Qed.

Lemma length_zero_omap {V : Type} (decode : bytes -> option V) (values : list bytes) :
  (length values =? 0)%nat = true -> omap decode values = [].
Proof. destruct values; [reflexivity | discriminate]. Qed.

(** The three branches of [numericSum], in closed form. *)
Lemma numericSum_int64 (t : Z) (values : list bytes) :
  numericSum (AInt64 t) values =
    match omap json_Unmarshal_int64 values with
    | [] => nil_bytes
    | vs => text (JNum (Marshal_int (wrap_int64 (sum_Z vs))))
    end.
Proof.
  unfold numericSum. destruct (length values =? 0)%nat eqn:E.
  - rewrite (length_zero_omap _ _ E). reflexivity.
  - rewrite each_decoded_spec, sum_int64.
    destruct (omap json_Unmarshal_int64 values); reflexivity.
Qed.

Lemma numericSum_uint64 (t : Z) (values : list bytes) :
  numericSum (AUint64 t) values =
    match omap json_Unmarshal_uint64 values with
    | [] => nil_bytes
    | vs => text (JNum (Marshal_int (wrap_uint64 (sum_Z vs))))
    end.
Proof.
  unfold numericSum. destruct (length values =? 0)%nat eqn:E.
  - rewrite (length_zero_omap _ _ E). reflexivity.
  - rewrite each_decoded_spec, sum_uint64.
    destruct (omap json_Unmarshal_uint64 values); reflexivity.
Qed.

Lemma numericSum_float64 (t : float64) (values : list bytes) :
  numericSum (AFloat64 t) values =
    match omap json_Unmarshal_float64 values with
    | [] => nil_bytes
    | _ =>
        or_nil (json_Marshal_float64
          (fold_left float64_add (omap json_Unmarshal_float64 values) (S754_zero false)))
    end.
Proof.
  unfold numericSum. destruct (length values =? 0)%nat eqn:E.
  - rewrite (length_zero_omap _ _ E). reflexivity.
  - rewrite each_decoded_spec.
    destruct (omap json_Unmarshal_float64 values); reflexivity.
Qed.

(** C7, as the code has it. The sum reducer starts from 0, adds the
    scalars that decode and passes over the others; integral sums wrap.
    It returns nil exactly when the list is empty or no scalar decodes
    or, for [float64], when the sum is not finite and so has no encoding.
    The [int64] counters 17, 25 and 8 give 50. *)
Theorem numericSum_spec (values : list bytes) :
  (forall t,
     numericSum (AInt64 t) values =
       match omap json_Unmarshal_int64 values with
       | [] => nil_bytes
       | vs => text (JNum (Marshal_int (wrap_int64 (sum_Z vs))))
       end
     /\ (numericSum (AInt64 t) values = nil_bytes <->
         values = [] \/ Forall (fun value => json_Unmarshal_int64 value = None) values))
  /\ (forall t,
     numericSum (AUint64 t) values =
       match omap json_Unmarshal_uint64 values with
       | [] => nil_bytes
       | vs => text (JNum (Marshal_int (wrap_uint64 (sum_Z vs))))
       end
     /\ (numericSum (AUint64 t) values = nil_bytes <->
         values = [] \/ Forall (fun value => json_Unmarshal_uint64 value = None) values))
  /\ (forall t,
     let sum := fold_left float64_add (omap json_Unmarshal_float64 values) (S754_zero false) in
     numericSum (AFloat64 t) values =
       match omap json_Unmarshal_float64 values with
       | [] => nil_bytes
       | _ => or_nil (json_Marshal_float64 sum)
       end
     /\ (numericSum (AFloat64 t) values = nil_bytes <->
         values = [] \/ Forall (fun value => json_Unmarshal_float64 value = None) values
         \/ is_finite sum = false))
  /\ sumInt64 [num 17; num 25; num 8] = num 50.
Proof.
  assert (Hnil : forall (V : Type) (decode : bytes -> option V),
             values = [] \/ Forall (fun value => decode value = None) values
             <-> omap decode values = []).
  { intros V decode. rewrite omap_nil_iff. split; [| auto].
    intros [-> | HF]; [constructor | assumption]. }
  split; [| split; [| split]].
  - intros t. split; [apply numericSum_int64 |].
    rewrite numericSum_int64, Hnil.
    destruct (omap json_Unmarshal_int64 values); split; congruence.
  - intros t. split; [apply numericSum_uint64 |].
    rewrite numericSum_uint64, Hnil.
    destruct (omap json_Unmarshal_uint64 values); split; congruence.
  - intros t sum. split; [apply numericSum_float64 |].
    rewrite numericSum_float64.
    rewrite <- (or_nil_Marshal_float64 sum).
    destruct (omap json_Unmarshal_float64 values) as [| v vs] eqn:E.
    + split; [intros _ | reflexivity]. right. left. apply omap_nil_iff, E.
    + fold sum. split; [auto |].
      intros [-> | [HF | Hsum]]; [discriminate E | | exact Hsum].
      apply omap_nil_iff in HF. congruence.
  - reflexivity.
Qed.

(** Two scalars of 1e308 decode as [float64]; their sum is an infinity,
    which [json.Marshal] refuses, and [sumFloat64] returns nil. *)
Lemma sumFloat64_overflow :
  ~ (forall (typ : any) (values : list bytes),
       In typ [AFloat64 (S754_zero false); AUint64 0; AInt64 0] ->
       (numericSum typ values = nil_bytes <->
        values = [] \/ Forall (fun value => decodesAs typ value = false) values)).
Proof.
  intros claim.
  pose (big := text (JNum (IntLit false (10 ^ 308)))).
  destruct (claim (AFloat64 (S754_zero false)) [big; big]) as [Hnil _]; [simpl; auto |].
  destruct Hnil as [E | HF]; [vm_compute; reflexivity | discriminate E |].
  inversion HF as [| ? ? Hbig _]; subst. vm_compute in Hbig. discriminate Hbig.
Qed.

(** ** The combiner, facet by facet *)

Lemma aggregate_names_case (timeout : Z) (filter : Filter) (respStats : list RespStat) :
  filterFacet filter = FacetNames ->
  aggregateStatResponses (newReqStat timeout filter) respStats
  = Returns (aggregateNames respStats).
Proof. destruct filter; intros E; try discriminate E; reflexivity. Qed.

Lemma aggregate_desc_case (timeout : Z) (filter : Filter) (respStats : list RespStat) :
  filterFacet filter = FacetDesc ->
  aggregateStatResponses (newReqStat timeout filter) respStats
  = Returns (aggregateDesc respStats).
Proof. destruct filter; intros E; try discriminate E; reflexivity. Qed.

Lemma length_nonempty (s : string) : s <> "" -> (String.length s =? 0)%nat = false.
Proof. destruct s; [congruence | reflexivity]. Qed.

Lemma aggregate_value_case (timeout : Z) (filter : Filter) (indicatorName : string)
    (respStats : list RespStat) :
  valueIndicatorName filter = Some indicatorName ->
  indicatorName <> "" ->
  aggregateStatResponses (newReqStat timeout filter) respStats
  = Returns (aggregateValue
               (indicatorName, lookupAggregator (filterScope filter) indicatorName)
               respStats).
Proof.
  intros E Hname. apply length_nonempty in Hname.
  destruct filter as [f|f|f|f|f|f|f|f|f]; try discriminate E;
    injection E as <-;
    cbn -[aggregateValue pipelineIndicatorAggregateMap pluginIndicatorAggregateMap
          taskIndicatorAggregateMap];
    unfold pipelineValueCase, pluginValueCase, taskValueCase, valueCase;
    cbn -[aggregateValue pipelineIndicatorAggregateMap pluginIndicatorAggregateMap
          taskIndicatorAggregateMap];
    repeat first [rewrite Hname | progress cbn [bind_outcome fmap option_fmap option_map]];
    reflexivity.
Qed.

(** *** Descriptions *)

Lemma aggregateDesc_cons (resp : RespStat) (rest : list RespStat) :
  aggregateDesc (resp :: rest) =
    match decodedDesc resp with
    | Some _ => Some (onlyDesc (Desc resp))
    | None => aggregateDesc rest
    end.
Proof.
  unfold decodedDesc. simpl.
  destruct (json_Unmarshal_ResultStatIndicatorDesc (Desc resp)) as [r |]; [| reflexivity].
  destruct (any_is_nil (ResultDesc r)); reflexivity.
Qed.




(** *** Names *)

Lemma addNames_cons (name : string) (names ret : list string) (memory : gset string) :
  addNames (name :: names) (ret, memory) =
    if decide (name ∈ memory) then addNames names (ret, memory)
    else addNames names ((ret ++ [name])%list, {[name]} ∪ memory).
Proof. unfold addNames. simpl. destruct (decide (name ∈ memory)); reflexivity. Qed.

Lemma addNames_spec (names : list string) (st : list string * gset string) :
  namesInv st ->
  namesInv (addNames names st)
  /\ forall name, name ∈ fst (addNames names st) <-> name ∈ fst st \/ name ∈ names.
Proof.
  revert st. induction names as [| n names IH]; intros [ret memory] [Hnd Hmem].
  - split; [split; assumption |]. intros name. simpl. rewrite elem_of_nil. tauto.
  - rewrite addNames_cons. simpl in Hnd, Hmem.
    destruct (decide (n ∈ memory)) as [Hin | Hnotin].
    + destruct (IH (ret, memory)) as [Hinv Hel]; [split; assumption |].
      split; [exact Hinv |]. intros name. rewrite Hel, elem_of_cons. simpl.
      split; [tauto |]. intros [Hr | [-> | Hn]]; [tauto | | tauto].
      left. apply Hmem, Hin.
    + destruct (IH ((ret ++ [n])%list, {[n]} ∪ memory)) as [Hinv Hel].
      { split; simpl.
        - apply NoDup_app. split; [assumption |]. split; [| apply NoDup_singleton].
          intros x Hx. rewrite list_elem_of_singleton. intros ->.
          apply Hnotin, Hmem, Hx.
        - intros name. rewrite elem_of_union, elem_of_singleton, elem_of_app,
            list_elem_of_singleton, Hmem. tauto. }
      split; [exact Hinv |]. intros name. rewrite Hel, elem_of_cons. simpl.
      rewrite elem_of_app, list_elem_of_singleton. tauto.
Qed.

(** The outer loop from any sound state: the list gains exactly the names
    of the partials that decode. *)
Lemma collect_spec (respStats : list RespStat) (st : list string * gset string) :
  namesInv st ->
  let st' :=
    fold_left
      (fun st resp =>
         match json_Unmarshal_ResultStatIndicatorNames (Names resp) with
         | None => st
         | Some r => addNames (ResultNames r) st
         end)
      respStats st in
  namesInv st'
  /\ forall name,
       name ∈ fst st' <->
       name ∈ fst st
       \/ exists resp l, resp ∈ respStats /\ decodedNames resp = Some l /\ name ∈ l.
Proof.
  revert st. induction respStats as [| resp respStats IH]; intros st Hinv; cbn zeta.
  - split; [exact Hinv |]. intros name. simpl. split; [tauto |].
    intros [Hn | (resp & l & Hresp & _)]; [exact Hn |]. apply elem_of_nil in Hresp. tauto.
  - cbn [fold_left].
    destruct (json_Unmarshal_ResultStatIndicatorNames (Names resp)) as [r |] eqn:E.
    + destruct (addNames_spec (ResultNames r) st Hinv) as [Hinv' Hel'].
      destruct (IH _ Hinv') as [Hinv'' Hel'']. cbn zeta in Hinv'', Hel''.
      split; [exact Hinv'' |]. intros name. rewrite Hel'', Hel'. split.
      * intros [[Hn | Hn] | (resp' & l & Hresp & Hl & Hn)].
        -- left. exact Hn.
        -- right. exists resp, (ResultNames r). split; [apply elem_of_cons; auto |].
           unfold decodedNames. rewrite E. auto.
        -- right. exists resp', l. split; [apply elem_of_cons; auto | auto].
      * intros [Hn | (resp' & l & Hresp & Hl & Hn)]; [auto |].
        apply elem_of_cons in Hresp as [-> | Hresp].
        -- unfold decodedNames in Hl. rewrite E in Hl. injection Hl as <-. auto.
        -- right. exists resp', l. auto.
    + destruct (IH _ Hinv) as [Hinv'' Hel'']. cbn zeta in Hinv'', Hel''.
      split; [exact Hinv'' |]. intros name. rewrite Hel''. split.
      * intros [Hn | (resp' & l & Hresp & Hl & Hn)]; [auto |].
        right. exists resp', l. split; [apply elem_of_cons; auto | auto].
      * intros [Hn | (resp' & l & Hresp & Hl & Hn)]; [auto |].
        apply elem_of_cons in Hresp as [-> | Hresp].
        -- unfold decodedNames in Hl. rewrite E in Hl. discriminate Hl.
        -- right. exists resp', l. auto.
Qed.

Lemma collectNames_spec (respStats : list RespStat) :
  NoDup (fst (collectNames respStats))
  /\ forall name,
       name ∈ fst (collectNames respStats) <->
       exists resp l, resp ∈ respStats /\ decodedNames resp = Some l /\ name ∈ l.
Proof.
  destruct (collect_spec respStats ([], ∅)) as [[Hnd _] Hel].
  { split; simpl; [apply NoDup_nil_2 |]. intros name.
    rewrite elem_of_empty, elem_of_nil. tauto. }
  split; [exact Hnd |]. intros name. unfold collectNames. rewrite Hel. simpl.
  rewrite elem_of_nil. tauto.
Qed.

Lemma insert_sorted_Permutation (s : string) (l : list string) :
  Permutation (insert_sorted s l) (s :: l).
Proof.
  induction l as [| x l IH]; simpl; [reflexivity |].
  destruct (String.leb s x); [reflexivity |].
  rewrite IH. apply perm_swap.
Qed.

Lemma sort_Strings_Permutation (l : list string) : Permutation (sort_Strings l) l.
Proof.
  induction l as [| x l IH]; simpl; [reflexivity |].
  rewrite insert_sorted_Permutation, IH. reflexivity.
Qed.

Lemma insert_sorted_HdRel (a s : string) (l : list string) :
  string_le a s -> HdRel string_le a l -> HdRel string_le a (insert_sorted s l).
Proof.
  intros Has Hl. destruct l as [| x l]; simpl; [constructor; exact Has |].
  destruct (String.leb s x); constructor; [exact Has |].
  inversion Hl; assumption.
Qed.

Lemma insert_sorted_Sorted (s : string) (l : list string) :
  Sorted string_le l -> Sorted string_le (insert_sorted s l).
Proof.
  induction 1 as [| x l Hl IH Hx]; simpl; [repeat constructor |].
  destruct (String.leb s x) eqn:E.
  - constructor; [constructor; assumption |]. constructor. exact E.
  - constructor; [exact IH |]. apply insert_sorted_HdRel; [| exact Hx].
    destruct (String.leb_total s x) as [Hsx | Hxs]; [congruence | exact Hxs].
Qed.

Lemma sort_Strings_Sorted (l : list string) : Sorted string_le (sort_Strings l).
Proof.
  induction l as [| x l IH]; simpl; [constructor |].
  apply insert_sorted_Sorted, IH.
Qed.

Lemma ascii_compare_refl (c : ascii) : Ascii.compare c c = Eq.
Proof. unfold Ascii.compare. apply N.compare_refl. Qed.

Lemma string_compare_refl (s : string) : String.compare s s = Eq.
Proof. induction s as [| c s IH]; simpl; [reflexivity |]. rewrite ascii_compare_refl. exact IH. Qed.

Lemma string_compare_Lt_trans (a b c : string) :
  String.compare a b = Lt -> String.compare b c = Lt -> String.compare a c = Lt.
Proof.
  revert b c. induction a as [| x a IH]; intros [| y b] [| z c]; simpl; try discriminate; auto.
  destruct (Ascii.compare x y) eqn:Exy; try discriminate;
    destruct (Ascii.compare y z) eqn:Eyz; try discriminate; intros Hab Hbc.
  - apply Ascii.compare_eq_iff in Exy, Eyz. subst. rewrite ascii_compare_refl. eauto.
  - apply Ascii.compare_eq_iff in Exy. subst. rewrite Eyz. reflexivity.
  - apply Ascii.compare_eq_iff in Eyz. subst. rewrite Exy. reflexivity.
  - unfold Ascii.compare in *. rewrite N.compare_lt_iff in *.
    replace (N_of_ascii x ?= N_of_ascii z)%N with Lt; [reflexivity |].
    symmetry. apply N.compare_lt_iff. lia.
Qed.

Lemma string_le_trans (a b c : string) : string_le a b -> string_le b c -> string_le a c.
Proof.
  unfold string_le, String.leb. intros Hab Hbc.
  destruct (String.compare a b) eqn:Eab; try discriminate;
    destruct (String.compare b c) eqn:Ebc; try discriminate.
  - apply String.compare_eq_iff in Eab, Ebc. subst. rewrite string_compare_refl. reflexivity.
  - apply String.compare_eq_iff in Eab. subst. rewrite Ebc. reflexivity.
  - apply String.compare_eq_iff in Ebc. subst. rewrite Eab. reflexivity.
  - rewrite (string_compare_Lt_trans a b c Eab Ebc). reflexivity.
Qed.

Lemma sorted_unique (l1 l2 : list string) :
  Permutation l1 l2 -> StronglySorted string_le l1 -> StronglySorted string_le l2 -> l1 = l2.
Proof.
  revert l2. induction l1 as [| x l1 IH]; intros l2 Hperm H1 H2.
  - apply Permutation_nil in Hperm. congruence.
  - destruct l2 as [| y l2]; [symmetry in Hperm; apply Permutation_nil in Hperm; discriminate |].
    inversion H1 as [| ? ? H1' Hx]; subst. inversion H2 as [| ? ? H2' Hy]; subst.
    assert (Exy : x = y).
    { assert (Hxin : In x (y :: l2)) by (eapply Permutation_in; [exact Hperm | left; reflexivity]).
      assert (Hyin : In y (x :: l1))
        by (eapply Permutation_in; [symmetry; exact Hperm | left; reflexivity]).
      destruct Hxin as [-> | Hxin]; [reflexivity |].
      destruct Hyin as [-> | Hyin]; [reflexivity |].
      apply String.leb_antisym.
      - exact (proj1 (List.Forall_forall _ _) Hx y Hyin).
      - exact (proj1 (List.Forall_forall _ _) Hy x Hxin). }
    subst y. f_equal. apply IH; [| assumption | assumption].
    eapply Permutation_cons_inv, Hperm.
Qed.

(** There is one increasing arrangement of a list, so [sort_Strings]
    returns what any sorting procedure returns, [sort.Strings] included. *)
Lemma sort_Strings_unique (l sorted : list string) :
  Permutation sorted l -> Sorted string_le sorted -> sorted = sort_Strings l.
Proof.
  intros Hperm Hsorted.
  assert (Htrans : Relations_1.Transitive string_le)
    by (intros a b c; apply string_le_trans).
  apply sorted_unique.
  - rewrite Hperm. symmetry. apply sort_Strings_Permutation.
  - apply Sorted_StronglySorted; assumption.
  - apply Sorted_StronglySorted; [assumption | apply sort_Strings_Sorted].
Qed.

Lemma decode_strings_encoded (l : list string) :
  mapM decode_string (map JStr l) = Some l.
Proof. induction l as [| s l IH]; simpl; [reflexivity |]. rewrite IH. reflexivity. Qed.

(** What [json.Marshal] writes for a names result decodes to it. *)
Lemma decodedNames_namesOf (l : list string) : decodedNames (onlyNames (namesOf l)) = Some l.
Proof.
  unfold decodedNames, json_Unmarshal_ResultStatIndicatorNames, namesOf, decode_struct.
  cbn [Names onlyNames decode_field].
  change (equalFold "Names" "Names") with true. cbn [decode_strings].
  rewrite decode_strings_encoded. reflexivity.
Qed.



(** The names of [a, c] and [b, a] combine into [a, b, c]. *)
Example aggregate_names_union_example :
  aggregateStatResponses (newReqStat 1000 (pipelineNames "p1"))
    [onlyNames (namesOf ["a"; "c"]); onlyNames (namesOf ["b"; "a"])]
  = Returns (Some (onlyNames (namesOf ["a"; "b"; "c"]))).
Proof. reflexivity. Qed.



(** *** Values of an indicator without a reducer *)

Lemma json_nested_ind (P : json -> Prop) :
  P JNull ->
  (forall b, P (JBool b)) ->
  (forall x, P (JNum x)) ->
  (forall s, P (JStr s)) ->
  (forall elements, Forall P elements -> P (JArr elements)) ->
  (forall members, Forall (fun member => P (snd member)) members -> P (JObj members)) ->
  forall d, P d.
Proof.
  intros Hnull Hbool Hnum Hstr Harr Hobj. fix IH 1.
  intros [| b | x | s | elements | members].
  - exact Hnull.
  - apply Hbool.
  - apply Hnum.
  - apply Hstr.
  - apply Harr. revert elements. fix IHl 1. intros [| e elements].
    + constructor.
    + constructor; [apply IH | apply IHl].
  - apply Hobj. revert members. fix IHl 1. intros [| [k v] members].
    + constructor.
    + constructor; [apply IH | apply IHl].
Qed.

Lemma encodable_AMap (m : list (string * any)) :
  Forall (fun member => encodable (snd member)) m -> encodable (AMap m).
Proof.
  intros Hm. unfold encodable. cbn [encode_any]. apply fmap_is_Some, mapM_is_Some.
  eapply Forall_impl; [exact Hm |]. intros [k v] Hv. simpl. apply fmap_is_Some, Hv.
Qed.

Lemma encodable_ASlice (l : list any) : Forall encodable l -> encodable (ASlice l).
Proof.
  intros Hl. unfold encodable. cbn [encode_any]. apply fmap_is_Some, mapM_is_Some.
  exact Hl.
Qed.

Lemma amap_insert_encodable (k : string) (a : any) (m : list (string * any)) :
  encodable a ->
  Forall (fun member => encodable (snd member)) m ->
  Forall (fun member => encodable (snd member)) (amap_insert k a m).
Proof.
  intros Ha. induction 1 as [| [k' v'] m Hv Hm IH]; simpl.
  - repeat constructor. exact Ha.
  - destruct (String.compare k k'); repeat constructor; assumption.
Qed.

Lemma decode_members_encodable (members : list (string * json))
    (acc : option (list (string * any))) (m : list (string * any)) :
  Forall (fun member => forall a, decode_any (snd member) = Some a -> encodable a) members ->
  (forall m0, acc = Some m0 -> Forall (fun member => encodable (snd member)) m0) ->
  fold_left
    (fun acc member =>
       match acc, decode_any (snd member) with
       | Some m, Some a => Some (amap_insert (fst member) a m)
       | _, _ => None
       end)
    members acc = Some m ->
  Forall (fun member => encodable (snd member)) m.
Proof.
  intros Hmembers. revert acc. induction Hmembers as [| member members Hd _ IH];
    intros acc Hacc; cbn [fold_left].
  - intros ->. apply Hacc. reflexivity.
  - apply IH. intros m0.
    destruct acc as [m1 |]; [| discriminate].
    destruct (decode_any (snd member)) as [a |] eqn:E; [| discriminate].
    intros E'. injection E' as <-. apply amap_insert_encodable; auto.
Qed.

(** Whatever decodes into an [interface{}] can be encoded again. *)
Lemma decode_any_encodable (d : json) (a : any) : decode_any d = Some a -> encodable a.
Proof.
  revert a. induction d as [| b | x | s | elements IH | members IH] using json_nested_ind;
    intros a; cbn [decode_any]; intros E.
  - injection E as <-. eexists. reflexivity.
  - injection E as <-. eexists. reflexivity.
  - unfold ParseFloat in E.
    destruct x as [negative digits | f].
    + destruct (is_finite _) eqn:Hf; [| discriminate E]. injection E as <-.
      unfold encodable. cbn [encode_any]. unfold Marshal_float64. rewrite Hf.
      destruct (float64_integral _) as [[s n] |]; [destruct (n <? 10 ^ 21)%N |];
        eexists; reflexivity.
    + destruct (is_finite f) eqn:Hf; [| discriminate E]. injection E as <-.
      unfold encodable. cbn [encode_any]. unfold Marshal_float64. rewrite Hf.
      destruct (float64_integral _) as [[s n] |]; [destruct (n <? 10 ^ 21)%N |];
        eexists; reflexivity.
  - injection E as <-. eexists. reflexivity.
  - destruct (mapM decode_any elements) as [l |] eqn:El; [| discriminate E].
    injection E as <-. apply encodable_ASlice.
    apply mapM_Some in El. induction El as [| e v elements l He _ IHl]; [constructor |].
    inversion IH; subst. constructor; auto.
  - destruct (fold_left _ members (Some [])) as [m |] eqn:Em; [| discriminate E].
    injection E as <-. apply encodable_AMap.
    eapply decode_members_encodable; [exact IH | | exact Em].
    intros m0 E0. injection E0 as <-. constructor.
Qed.

Lemma decode_field_from {A : Type} (key : string) (dec : json -> option A)
    (members : list (string * json)) (field a : A) :
  decode_field key dec members field = Some a ->
  a = field \/ exists d, dec d = Some a.
Proof.
  revert field. induction members as [| [k v] members IH]; intros field; simpl.
  - intros E. injection E as <-. auto.
  - destruct (equalFold k key); [| apply IH].
    destruct (dec v) as [a' |] eqn:E; [| discriminate].
    intros E'. destruct (IH _ E') as [-> | Hd]; eauto.
Qed.

Lemma decodedValue_encodable (resp : RespStat) (v : any) :
  decodedValue resp = Some v -> encodable v.
Proof.
  unfold decodedValue, json_Unmarshal_ResultStatIndicatorValue, decode_struct.
  destruct (Value resp) as [| d | raw]; try discriminate.
  destruct d as [| b | x | s | elements | members]; try discriminate.
  destruct (decode_field "Value" decode_any members ANil) as [a |] eqn:E; [| discriminate].
  cbn [ResultValue]. destruct (any_is_nil a); [discriminate |].
  intros E'. injection E' as <-.
  destruct (decode_field_from _ _ _ _ _ E) as [-> | [d Hd]].
  - eexists. reflexivity.
  - eapply decode_any_encodable, Hd.
Qed.

Lemma indicatorValuesOf_decoded (respStats : list RespStat) :
  indicatorValuesOf respStats
  = map (fun v => {| ResultValue := v |}) (omap decodedValue respStats).
Proof.
  induction respStats as [| resp respStats IH]; [reflexivity |].
  cbn [indicatorValuesOf omap list_omap]. unfold decodedValue at 1.
  destruct (json_Unmarshal_ResultStatIndicatorValue (Value resp)) as [[v] |]; [| exact IH].
  cbn [ResultValue]. destruct (any_is_nil v); [exact IH |].
  cbn [map]. rewrite IH. reflexivity.
Qed.

Lemma encode_values (vs : list any) :
  Forall encodable vs ->
  exists elements,
    mapM encode_ResultStatIndicatorValue (map (fun v => {| ResultValue := v |}) vs)
    = Some elements
    /\ Forall2 (fun v element =>
                  exists d, encode_any v = Some d /\ element = JObj [("Value", d)])
               vs elements.
Proof.
  induction 1 as [| v vs [d Hd] _ (elements & E & HF)].
  - exists []. split; [reflexivity | constructor].
  - exists (JObj [("Value", d)] :: elements). split.
    + cbn [map]. apply mapM_Some. constructor; [| apply mapM_Some, E].
      unfold encode_ResultStatIndicatorValue. cbn [ResultValue]. rewrite Hd. reflexivity.
    + constructor; [eauto | exact HF].
Qed.

Lemma length_omap_filter {A B : Type} (f : A -> option B) (l : list A) :
  length (omap f l) = length (List.filter (fun x => bool_decide (is_Some (f x))) l).
Proof.
  induction l as [| x l IH]; [reflexivity |].
  cbn [omap list_omap List.filter]. destruct (f x) as [y |].
  - rewrite bool_decide_true by eauto. simpl. rewrite IH. reflexivity.
  - rewrite bool_decide_false by (intros [y Hy]; discriminate). exact IH.
Qed.

(** C8: on a value query whose indicator has no reducer in the catalog of
    its scope, the combiner returns the list of the values of the
    partials whose value decodes (to something other than nil), in the
    order of the partials, one element for each such partial. *)
Theorem aggregate_unknown_value (timeout : Z) (filter : Filter) (indicatorName : string)
    (respStats : list RespStat) :
  valueIndicatorName filter = Some indicatorName ->
  indicatorName <> "" ->
  lookupAggregator (filterScope filter) indicatorName = None ->
  exists elements,
    aggregateStatResponses (newReqStat timeout filter) respStats
    = Returns (Some (onlyValue (text (JArr elements))))
    /\ Forall2 (fun v element =>
                  exists d, encode_any v = Some d /\ element = JObj [("Value", d)])
               (omap decodedValue respStats) elements
    /\ length elements
       = length (List.filter (fun resp => bool_decide (is_Some (decodedValue resp))) respStats).
Proof.
  intros Hfilter Hname Hunknown.
  rewrite (aggregate_value_case _ _ _ _ Hfilter Hname), Hunknown.
  unfold aggregateValue. rewrite (length_nonempty _ Hname), indicatorValuesOf_decoded.
  destruct (encode_values (omap decodedValue respStats)) as (elements & E & HF).
  { apply list.Forall_forall. intros v Hv. apply list_elem_of_omap in Hv.
    destruct Hv as (resp & _ & Hresp). eapply decodedValue_encodable, Hresp. }
  exists elements. unfold json_Marshal_indicatorValues. rewrite E.
  split; [reflexivity |]. split; [exact HF |].
  rewrite <- (Forall2_length _ _ _ HF). apply length_omap_filter.
Qed.

Lemma aggregate_unknown_value_witness :
  valueIndicatorName (pipelineValue "p1" "CUSTOM_X") = Some "CUSTOM_X"
  /\ "CUSTOM_X" <> ""
  /\ lookupAggregator (filterScope (pipelineValue "p1" "CUSTOM_X")) "CUSTOM_X" = None
  /\ exists elements,
       aggregateStatResponses (newReqStat 1000 (pipelineValue "p1" "CUSTOM_X"))
         [onlyValue (valueOf (JNum (IntLit false 3))); onlyValue nil_bytes;
          onlyValue (valueOf (JNum (IntLit false 4)))]
       = Returns (Some (onlyValue (text (JArr elements))))
       /\ Forall2 (fun v element =>
                     exists d, encode_any v = Some d /\ element = JObj [("Value", d)])
                  (omap decodedValue
                     [onlyValue (valueOf (JNum (IntLit false 3))); onlyValue nil_bytes;
                      onlyValue (valueOf (JNum (IntLit false 4)))])
                  elements
       /\ length elements
          = length (List.filter (fun resp => bool_decide (is_Some (decodedValue resp)))
                      [onlyValue (valueOf (JNum (IntLit false 3))); onlyValue nil_bytes;
                       onlyValue (valueOf (JNum (IntLit false 4)))]).
Proof.
  split; [reflexivity |]. split; [discriminate |]. split; [reflexivity |].
  apply (aggregate_unknown_value 1000 (pipelineValue "p1" "CUSTOM_X") "CUSTOM_X"
           [onlyValue (valueOf (JNum (IntLit false 3))); onlyValue nil_bytes;
            onlyValue (valueOf (JNum (IntLit false 4)))]);
    [reflexivity | discriminate | reflexivity].
Defined.

(** The values 3 and 4 of an indicator that is not in the catalog come
    back as the list of the two. *)
Example unknown_values_listed_example :
  aggregateStatResponses (newReqStat 1000 (pipelineValue "p1" "CUSTOM_X"))
    [onlyValue (valueOf (JNum (IntLit false 3))); onlyValue (valueOf (JNum (IntLit false 4)))]
  = Returns (Some (onlyValue (text (JArr [JObj [("Value", JNum (IntLit false 3))];
                                          JObj [("Value", JNum (IntLit false 4))]])))).
Proof. reflexivity. Qed.

(** ** Member selection *)

Section Selection.
Context `{Env}.

Lemma selectMember_cases (rv : RangeVar) (group : string) (i : nat) (member : Member)
    (st : selection) :
  let p := memberVar rv i in
  let st' := selectMember rv group i member st in
  heap st' = <[p := member]> (heap st)
  /\ readMembers st'
     = (readMembers st ++ if aliveReadMember group member then [p] else [])%list
  /\ writeMembers st'
     = (writeMembers st ++ if aliveWriteMember group member then [p] else [])%list.
Proof.
  unfold selectMember, aliveReadMember, aliveWriteMember, inGroupAlive. cbn zeta.
  destruct (String.eqb (tag (NodeTags member) groupTagKey) group
            && MemberStatus_eqb (Status member) MemberAlive);
    [destruct (String.eqb (tag (NodeTags member) modeTagKey) ReadMode_String) |];
    cbn; rewrite ?app_nil_r; auto.
Qed.

Lemma pickMember_at (heap : gmap nat Member) (members : list nat) (rand_Int : nat)
    (found : list Member) (first : Member) :
  Forall2 (fun p member => heap !! p = Some member) members found ->
  members <> [] ->
  pickMember heap members rand_Int
  = Returns (nth (rand_Int mod length found) found first).
Proof.
  intros HF Hne. unfold pickMember.
  assert (Hlen : length members = length found) by (eapply Forall2_length; exact HF).
  assert (Hlt : rand_Int mod length members < length members).
  { apply Nat.mod_upper_bound. destruct members; [congruence | discriminate]. }
  destruct (lookup_lt_is_Some_2 members _ Hlt) as [p Hp]. rewrite Hp.
  destruct (Forall2_lookup_l _ _ _ _ _ HF Hp) as (member & Hm & Hheap).
  rewrite Hheap, <- Hlen. f_equal.
  apply nth_lookup_Some with (d := first) in Hm. symmetry. exact Hm.
Qed.

(** *** One variable per iteration *)

Lemma keptPerIteration_step (group : string) (i : nat) (st : selection)
    (seen : list Member) (member : Member) :
  keptPerIteration group i st seen ->
  keptPerIteration group (S i) (selectMember PerIteration group i member st)
    (seen ++ [member])%list.
Proof.
  intros [Hr Hw].
  destruct (selectMember_cases PerIteration group i member st) as (Hh & Er & Ew).
  cbn zeta in Hh, Er, Ew. cbn [memberVar] in Hh, Er, Ew.
  assert (Hold : forall ptrs found,
             Forall2 (fun p m => p < i /\ heap st !! p = Some m) ptrs found ->
             Forall2 (fun p m => p < S i /\
                        heap (selectMember PerIteration group i member st) !! p = Some m)
                     ptrs found).
  { intros ptrs found HF. eapply Forall2_impl; [exact HF |].
    intros p m [Hp Hm]. split; [lia |]. rewrite Hh, lookup_insert_ne by lia. exact Hm. }
  assert (Hnew : S i > i /\
                 heap (selectMember PerIteration group i member st) !! i = Some member).
  { split; [lia |]. rewrite Hh. apply lookup_insert_eq. }
  unfold keptPerIteration. rewrite Er, Ew, !List.filter_app. cbn [List.filter].
  split; apply Forall2_app; auto.
  - destruct (aliveReadMember group member); [| constructor].
    constructor; [| constructor]. split; [lia | apply Hnew].
  - destruct (aliveWriteMember group member); [| constructor].
    constructor; [| constructor]. split; [lia | apply Hnew].
Qed.

Lemma keptPerIteration_range (group : string) (rest : list Member) (i : nat)
    (st : selection) (seen : list Member) :
  keptPerIteration group i st seen ->
  keptPerIteration group (i + length rest) (rangeMembers PerIteration group rest i st)
    (seen ++ rest)%list.
Proof.
  revert i st seen. induction rest as [| member rest IH]; intros i st seen Hkept.
  - simpl. rewrite Nat.add_0_r, app_nil_r. exact Hkept.
  - cbn [rangeMembers length]. replace (i + S (length rest)) with (S i + length rest) by lia.
    replace (seen ++ member :: rest)%list with ((seen ++ [member]) ++ rest)%list
      by (rewrite <- app_assoc; reflexivity).
    apply IH, keptPerIteration_step, Hkept.
Qed.

(** With one variable per iteration the function is the selection the
    comment in the code describes: a read-mode member of the group that
    is alive when there is one, otherwise a write-mode one, otherwise the
    error. *)
Lemma chooseMember_PerIteration (gc : GatewayCluster) (rand_Int : nat) (group : string) :
  chooseMemberToAggregateStat gc PerIteration rand_Int group =
    match List.filter (aliveReadMember group) (cluster_Members gc),
          List.filter (aliveWriteMember group) (cluster_Members gc) with
    | r :: rs, _ => Returns (inl (nth (rand_Int mod length (r :: rs)) (r :: rs) r))
    | [], w :: ws => Returns (inl (nth (rand_Int mod length (w :: ws)) (w :: ws) w))
    | [], [] => Returns (inr "none of members is alive to aggregate statistics")
    end.
Proof.
  unfold chooseMemberToAggregateStat.
  pose (start := {| heap := ∅; readMembers := []; writeMembers := [] |}).
  destruct (keptPerIteration_range group (cluster_Members gc) 0 start []) as [Hr Hw].
  { split; constructor. }
  fold start. simpl app in Hr, Hw.
  set (st := rangeMembers PerIteration group (cluster_Members gc) 0 start) in *.
  assert (Hr' : Forall2 (fun p m => heap st !! p = Some m) (readMembers st)
                  (List.filter (aliveReadMember group) (cluster_Members gc))).
  { eapply Forall2_impl; [exact Hr |]. intros p m [_ Hm]. exact Hm. }
  assert (Hw' : Forall2 (fun p m => heap st !! p = Some m) (writeMembers st)
                  (List.filter (aliveWriteMember group) (cluster_Members gc))).
  { eapply Forall2_impl; [exact Hw |]. intros p m [_ Hm]. exact Hm. }
  pose proof (Forall2_length _ _ _ Hr') as Lr.
  pose proof (Forall2_length _ _ _ Hw') as Lw.
  destruct (List.filter (aliveReadMember group) (cluster_Members gc)) as [| r rs] eqn:Er.
  - destruct (readMembers st); [| discriminate Lr]. cbn [length Nat.ltb Nat.leb].
    destruct (List.filter (aliveWriteMember group) (cluster_Members gc)) as [| w ws] eqn:Ew.
    + destruct (writeMembers st); [reflexivity | discriminate Lw].
    + destruct (writeMembers st) as [| p ps] eqn:Ep; [discriminate Lw |].
      cbn [length Nat.ltb Nat.leb].
      rewrite (pickMember_at _ _ rand_Int (w :: ws) w Hw') by discriminate. reflexivity.
  - destruct (readMembers st) as [| p ps] eqn:Ep; [discriminate Lr |].
    cbn [length Nat.ltb Nat.leb].
    rewrite (pickMember_at _ _ rand_Int (r :: rs) r Hr') by discriminate. reflexivity.
Qed.

(** *** One variable for the loop *)

Lemma keptPerLoop_step (group : string) (i : nat) (st : selection)
    (seen : list Member) (member : Member) :
  keptPerLoop group st seen ->
  keptPerLoop group (selectMember PerLoop group i member st) (seen ++ [member])%list.
Proof.
  intros (Hr & Hw & _ & Lr & Lw).
  destruct (selectMember_cases PerLoop group i member st) as (Hh & Er & Ew).
  cbn zeta in Hh, Er, Ew. cbn [memberVar] in Hh, Er, Ew.
  unfold keptPerLoop. rewrite Hh, Er, Ew, !List.filter_app, !length_app, Lr, Lw.
  cbn [List.filter]. repeat split.
  - apply Forall_app. split; [exact Hr |].
    destruct (aliveReadMember group member); repeat constructor.
  - apply Forall_app. split; [exact Hw |].
    destruct (aliveWriteMember group member); repeat constructor.
  - intros _. rewrite lookup_insert_eq, last_snoc. reflexivity.
  - destruct (aliveReadMember group member); reflexivity.
  - destruct (aliveWriteMember group member); reflexivity.
Qed.

Lemma keptPerLoop_range (group : string) (rest : list Member) (i : nat)
    (st : selection) (seen : list Member) :
  keptPerLoop group st seen ->
  keptPerLoop group (rangeMembers PerLoop group rest i st) (seen ++ rest)%list.
Proof.
  revert i st seen. induction rest as [| member rest IH]; intros i st seen Hkept.
  - simpl. rewrite app_nil_r. exact Hkept.
  - cbn [rangeMembers].
    replace (seen ++ member :: rest)%list with ((seen ++ [member]) ++ rest)%list
      by (rewrite <- app_assoc; reflexivity).
    apply IH, keptPerLoop_step, Hkept.
Qed.

Lemma pickMember_PerLoop (heap : gmap nat Member) (members : list nat) (rand_Int : nat)
    (member : Member) :
  Forall (fun p => p = 0) members ->
  members <> [] ->
  heap !! 0 = Some member ->
  pickMember heap members rand_Int = Returns member.
Proof.
  intros Hzero Hne Hheap. unfold pickMember.
  assert (Hlt : rand_Int mod length members < length members).
  { apply Nat.mod_upper_bound. destruct members; [congruence | discriminate]. }
  destruct (lookup_lt_is_Some_2 members _ Hlt) as [p Hp]. rewrite Hp.
  rewrite (proj1 (list.Forall_forall _ _) Hzero p) by (eapply list_elem_of_lookup_2, Hp).
  rewrite Hheap. reflexivity.
Qed.

Lemma filter_read_write (group : string) (members : list Member) :
  List.filter (aliveReadMember group) members = [] ->
  List.filter (aliveWriteMember group) members = [] ->
  List.filter (inGroupAlive group) members = [].
Proof.
  induction members as [| m members IH]; [reflexivity |].
  cbn [List.filter]. unfold aliveReadMember, aliveWriteMember.
  destruct (inGroupAlive group m); cbn [andb]; [| exact IH].
  destruct (String.eqb (tag (NodeTags m) modeTagKey) ReadMode_String); discriminate.
Qed.

Lemma filter_alive_read_write (group : string) (members : list Member) :
  List.filter (inGroupAlive group) members = [] ->
  List.filter (aliveReadMember group) members = []
  /\ List.filter (aliveWriteMember group) members = [].
Proof.
  induction members as [| m members IH]; [auto |].
  cbn [List.filter]. unfold aliveReadMember, aliveWriteMember.
  destruct (inGroupAlive group m); cbn [andb]; [discriminate | exact IH].
Qed.

(** With one variable for the loop the function returns the member the
    snapshot ends with, whatever its group, status and mode, as soon as
    some member is alive in the group. *)
Lemma chooseMember_PerLoop (gc : GatewayCluster) (rand_Int : nat) (group : string) :
  chooseMemberToAggregateStat gc PerLoop rand_Int group =
    match List.filter (inGroupAlive group) (cluster_Members gc),
          last (cluster_Members gc) with
    | _ :: _, Some member => Returns (inl member)
    | _, _ => Returns (inr "none of members is alive to aggregate statistics")
    end.
Proof.
  unfold chooseMemberToAggregateStat.
  pose (start := {| heap := ∅; readMembers := []; writeMembers := [] |}).
  destruct (keptPerLoop_range group (cluster_Members gc) 0 start [])
    as (Hr & Hw & Hlast & Lr & Lw).
  { repeat split; try constructor; congruence. }
  fold start. simpl app in Hlast, Lr, Lw.
  set (st := rangeMembers PerLoop group (cluster_Members gc) 0 start) in *.
  destruct (List.filter (inGroupAlive group) (cluster_Members gc)) as [| a alive] eqn:Ea.
  - destruct (filter_alive_read_write _ _ Ea) as [Er Ew]. rewrite Er in Lr. rewrite Ew in Lw.
    destruct (readMembers st); [| discriminate Lr].
    destruct (writeMembers st); [| discriminate Lw]. reflexivity.
  - assert (Hne : cluster_Members gc <> []).
    { intros E. rewrite E in Ea. discriminate Ea. }
    specialize (Hlast Hne).
    destruct (last (cluster_Members gc)) as [member |] eqn:El.
    2:{ apply last_None in El. contradiction. }
    destruct (readMembers st) as [| p ps] eqn:Ep.
    + destruct (writeMembers st) as [| q qs] eqn:Eq.
      * exfalso. symmetry in Lr, Lw.
        apply length_zero_iff_nil in Lr. apply length_zero_iff_nil in Lw.
        rewrite (filter_read_write _ _ Lr Lw) in Ea. discriminate Ea.
      * cbn [length Nat.ltb Nat.leb].
        rewrite (pickMember_PerLoop _ _ rand_Int member Hw) by (congruence || discriminate).
        reflexivity.
    + cbn [length Nat.ltb Nat.leb].
      rewrite (pickMember_PerLoop _ _ rand_Int member Hr) by (congruence || discriminate).
      reflexivity.
Qed.

(** X22: when no member of the group is alive the caller gets an error
    of kind [InternalServerError] and no request is issued, under either
    reading of the loop variable. *)
Lemma issueStat_no_alive_member (gc : GatewayCluster) (rv : RangeVar) (rand_Int : nat)
    (group : string) (timeout : Z) (requestName : string) (filter : Filter) :
  List.filter (inGroupAlive group) (cluster_Members gc) = [] ->
  fst (issueStat gc rv rand_Int group timeout requestName filter) = []
  /\ exists msg,
       snd (issueStat gc rv rand_Int group timeout requestName filter)
       = Returns (inr (newClusterError msg InternalServerError)).
Proof.
  intros Hnone. unfold issueStat.
  destruct (PackWithHeader_ReqStat (newReqStat timeout filter) statMessage) as [payload | err].
  2:{ split; [reflexivity | eexists; reflexivity]. }
  assert (E : chooseMemberToAggregateStat gc rv rand_Int group
              = Returns (inr "none of members is alive to aggregate statistics")).
  { destruct rv.
    - rewrite chooseMember_PerLoop, Hnone. reflexivity.
    - rewrite chooseMember_PerIteration.
      destruct (filter_alive_read_write _ _ Hnone) as [-> ->]. reflexivity. }
  rewrite E. split; [reflexivity | eexists; reflexivity].
Qed.

End Selection.


(** The same snapshot with one variable per iteration: [n1] is chosen. *)
Example chooseMember_PerIteration_example (rand_Int : nat) :
  chooseMemberToAggregateStat sampleCluster PerIteration rand_Int "g" = Returns (inl n1).
Proof.
  rewrite chooseMember_PerIteration.
  change (List.filter (aliveReadMember "g") (cluster_Members sampleCluster)) with [n1].
  cbn [length]. rewrite Nat.mod_1_r. reflexivity.
Qed.

(** * Further properties *)

(** ** The integer reducers *)

Lemma json_Unmarshal_int64_range (value : bytes) (v : Z) :
  json_Unmarshal_int64 value = Some v -> (MinInt64 <= v <= MaxInt64)%Z.
Proof.
  unfold json_Unmarshal_int64, ParseInt.
  destruct value as [| d | raw]; try discriminate.
  destruct d as [| b | x | s | elements | members]; try discriminate.
  - intros E. injection E as <-. unfold MinInt64, MaxInt64. lia.
  - destruct x as [negative digits | f]; [| discriminate].
    destruct (_ && _) eqn:Hrange; [| discriminate].
    intros E. injection E as <-. apply andb_true_iff in Hrange. lia.
Qed.

Lemma json_Unmarshal_uint64_range (value : bytes) (v : Z) :
  json_Unmarshal_uint64 value = Some v -> (0 <= v <= MaxUint64)%Z.
Proof.
  unfold json_Unmarshal_uint64, ParseUint.
  destruct value as [| d | raw]; try discriminate.
  destruct d as [| b | x | s | elements | members]; try discriminate.
  - intros E. injection E as <-. unfold MaxUint64. lia.
  - destruct x as [[|] digits | f]; try discriminate.
    destruct (_ <=? _)%Z eqn:Hrange; [| discriminate].
    intros E. injection E as <-. lia.
Qed.

(** What the reducers write for an integer of the type reads back. *)
Lemma json_Unmarshal_int64_num (z : Z) :
  (MinInt64 <= z <= MaxInt64)%Z -> json_Unmarshal_int64 (num z) = Some z.
Proof.
  intros Hz. unfold num, json_Unmarshal_int64, Marshal_int, ParseInt.
  assert (E : (if (z <? 0)%Z then (- Z.of_N (Z.abs_N z))%Z else Z.of_N (Z.abs_N z)) = z).
  { rewrite N2Z.inj_abs_N. destruct (z <? 0)%Z eqn:Hneg; lia. }
  rewrite E. replace ((MinInt64 <=? z)%Z && (z <=? MaxInt64)%Z) with true; [reflexivity |].
  symmetry. apply andb_true_iff. lia.
Qed.

Lemma json_Unmarshal_uint64_num (z : Z) :
  (0 <= z <= MaxUint64)%Z -> json_Unmarshal_uint64 (num z) = Some z.
Proof.
  intros Hz. unfold num, json_Unmarshal_uint64, Marshal_int, ParseUint.
  replace (z <? 0)%Z with false by (symmetry; apply Z.ltb_ge; lia).
  rewrite N2Z.inj_abs_N, Z.abs_eq by lia.
  replace (z <=? MaxUint64)%Z with true by (symmetry; apply Z.leb_le; lia).
  reflexivity.
Qed.

Lemma wrap_uint64_range (z : Z) : (0 <= wrap_uint64 z <= MaxUint64)%Z.
Proof.
  unfold wrap_uint64, MaxUint64.
  pose proof (Z.mod_pos_bound z (2 ^ 64) ltac:(lia)). lia.
Qed.

Lemma wrap_uint64_id (z : Z) : (0 <= z <= MaxUint64)%Z -> wrap_uint64 z = z.
Proof. unfold wrap_uint64, MaxUint64. intros Hz. apply Z.mod_small. lia. Qed.

(** The running maximum: at least the start and every value, and the
    start itself or one of the values. *)
Lemma running_max (vs : list Z) (init : Z) :
  let m := fold_left (fun max v => if (max <? v)%Z then v else max) vs init in
  (init <= m)%Z /\ Forall (fun v => (v <= m)%Z) vs /\ (m = init \/ In m vs).
Proof.
  revert init. induction vs as [| v vs IH]; intros init; cbn zeta; cbn [fold_left].
  - split; [lia |]. split; [constructor | auto].
  - destruct (IH (if (init <? v)%Z then v else init)) as (Hge & Hall & Hin).
    cbn zeta in Hge, Hall, Hin.
    destruct (init <? v)%Z eqn:E; [apply Z.ltb_lt in E | apply Z.ltb_ge in E].
    + split; [lia |]. split; [constructor; [lia | exact Hall] |].
      destruct Hin as [-> | Hin]; right; [left; reflexivity | right; exact Hin].
    + split; [lia |]. split; [constructor; [lia | exact Hall] |].
      destruct Hin as [Hm | Hin]; [left; exact Hm | right; right; exact Hin].
Qed.

Lemma running_min (vs : list Z) (init : Z) :
  let m := fold_left (fun min v => if (v <? min)%Z then v else min) vs init in
  (m <= init)%Z /\ Forall (fun v => (m <= v)%Z) vs /\ (m = init \/ In m vs).
Proof.
  revert init. induction vs as [| v vs IH]; intros init; cbn zeta; cbn [fold_left].
  - split; [lia |]. split; [constructor | auto].
  - destruct (IH (if (v <? init)%Z then v else init)) as (Hge & Hall & Hin).
    cbn zeta in Hge, Hall, Hin.
    destruct (v <? init)%Z eqn:E; [apply Z.ltb_lt in E | apply Z.ltb_ge in E].
    + split; [lia |]. split; [constructor; [lia | exact Hall] |].
      destruct Hin as [-> | Hin]; right; [left; reflexivity | right; exact Hin].
    + split; [lia |]. split; [constructor; [lia | exact Hall] |].
      destruct Hin as [Hm | Hin]; [left; exact Hm | right; right; exact Hin].
Qed.

(** A greatest element of a list that is bounded below by the start. *)
Lemma running_max_greatest (vs : list Z) (init : Z) :
  vs <> [] ->
  Forall (fun v => (init <= v)%Z) vs ->
  let m := fold_left (fun max v => if (max <? v)%Z then v else max) vs init in
  In m vs /\ Forall (fun v => (v <= m)%Z) vs.
Proof.
  intros Hne Hlow. destruct (running_max vs init) as (Hge & Hall & Hin).
  cbn zeta in *. split; [| exact Hall].
  destruct Hin as [Hm | Hin]; [| exact Hin].
  destruct vs as [| v vs]; [congruence |].
  inversion Hlow as [| ? ? Hv _]; subst. inversion Hall as [| ? ? Hv' _]; subst.
  rewrite Hm in *. left. lia.
Qed.

Lemma running_min_least (vs : list Z) (init : Z) :
  vs <> [] ->
  Forall (fun v => (v <= init)%Z) vs ->
  let m := fold_left (fun min v => if (v <? min)%Z then v else min) vs init in
  In m vs /\ Forall (fun v => (m <= v)%Z) vs.
Proof.
  intros Hne Hup. destruct (running_min vs init) as (Hle & Hall & Hin).
  cbn zeta in *. split; [| exact Hall].
  destruct Hin as [Hm | Hin]; [| exact Hin].
  destruct vs as [| v vs]; [congruence |].
  inversion Hup as [| ? ? Hv _]; subst. inversion Hall as [| ? ? Hv' _]; subst.
  rewrite Hm in *. left. lia.
Qed.

Lemma omap_range {V : Type} (decode : bytes -> option V) (P : V -> Prop)
    (values : list bytes) :
  (forall value v, decode value = Some v -> P v) -> Forall P (omap decode values).
Proof.
  intros HP. apply list.Forall_forall. intros v Hv.
  apply list_elem_of_omap in Hv. destruct Hv as (value & _ & Hvalue). eauto.
Qed.

(** The two integer branches of [numericMax] and [numericMin] in closed
    form. *)
Lemma numericMax_int64 (t : Z) (values : list bytes) :
  numericMax (AInt64 t) values =
    match omap json_Unmarshal_int64 values with
    | [] => nil_bytes
    | vs => num (fold_left (fun max v => if (max <? v)%Z then v else max) vs MinInt64)
    end.
Proof.
  unfold numericMax. destruct (length values =? 0)%nat eqn:E.
  - rewrite (length_zero_omap _ _ E). reflexivity.
  - rewrite each_decoded_spec. destruct (omap json_Unmarshal_int64 values); reflexivity.
Qed.

Lemma numericMax_uint64 (t : Z) (values : list bytes) :
  numericMax (AUint64 t) values =
    match omap json_Unmarshal_uint64 values with
    | [] => nil_bytes
    | vs => num (fold_left (fun max v => if (max <? v)%Z then v else max) vs 0%Z)
    end.
Proof.
  unfold numericMax. destruct (length values =? 0)%nat eqn:E.
  - rewrite (length_zero_omap _ _ E). reflexivity.
  - rewrite each_decoded_spec. destruct (omap json_Unmarshal_uint64 values); reflexivity.
Qed.

Lemma numericMin_int64 (t : Z) (values : list bytes) :
  numericMin (AInt64 t) values =
    match omap json_Unmarshal_int64 values with
    | [] => nil_bytes
    | vs => num (fold_left (fun min v => if (v <? min)%Z then v else min) vs MaxInt64)
    end.
Proof.
  unfold numericMin. destruct (length values =? 0)%nat eqn:E.
  - rewrite (length_zero_omap _ _ E). reflexivity.
  - rewrite each_decoded_spec. destruct (omap json_Unmarshal_int64 values); reflexivity.
Qed.

Lemma numericMin_uint64 (t : Z) (values : list bytes) :
  numericMin (AUint64 t) values =
    match omap json_Unmarshal_uint64 values with
    | [] => nil_bytes
    | vs => num (fold_left (fun min v => if (v <? min)%Z then v else min) vs MaxUint64)
    end.
Proof.
  unfold numericMin. destruct (length values =? 0)%nat eqn:E.
  - rewrite (length_zero_omap _ _ E). reflexivity.
  - rewrite each_decoded_spec. destruct (omap json_Unmarshal_uint64 values); reflexivity.
Qed.


(** X1: the integer maximum. [maxInt64] and [maxUint64] return nil when
    no value decodes, and otherwise the encoding of the greatest decoded
    value, which reads back as that value. *)
Theorem numericMax_greatest (values : list bytes) (t : Z) :
  picks json_Unmarshal_int64 (fun m v => (v <= m)%Z) (numericMax (AInt64 t) values) values
  /\ picks json_Unmarshal_uint64 (fun m v => (v <= m)%Z)
       (numericMax (AUint64 t) values) values.
Proof.
  unfold picks. split.
  - rewrite numericMax_int64.
    pose proof (omap_range json_Unmarshal_int64 _ values json_Unmarshal_int64_range) as Hr.
    destruct (omap json_Unmarshal_int64 values) as [| v vs] eqn:E; [left; auto |].
    destruct (running_max_greatest (v :: vs) MinInt64) as [Hin Hall];
      [discriminate | eapply Forall_impl; [exact Hr | cbn; lia] |].
    cbn zeta in Hin, Hall. right. eexists. split; [reflexivity |].
    split; [| split; [exact Hin | exact Hall]].
    apply json_Unmarshal_int64_num. exact (proj1 (List.Forall_forall _ _) Hr _ Hin).
  - rewrite numericMax_uint64.
    pose proof (omap_range json_Unmarshal_uint64 _ values json_Unmarshal_uint64_range) as Hr.
    destruct (omap json_Unmarshal_uint64 values) as [| v vs] eqn:E; [left; auto |].
    destruct (running_max_greatest (v :: vs) 0%Z) as [Hin Hall];
      [discriminate | eapply Forall_impl; [exact Hr | cbn; lia] |].
    cbn zeta in Hin, Hall. right. eexists. split; [reflexivity |].
    split; [| split; [exact Hin | exact Hall]].
    apply json_Unmarshal_uint64_num. exact (proj1 (List.Forall_forall _ _) Hr _ Hin).
Qed.

(** X2: the integer minimum. [minInt64] and [minUint64] return nil when
    no value decodes, and otherwise the encoding of the least decoded
    value, which reads back as that value. *)
Theorem numericMin_least (values : list bytes) (t : Z) :
  picks json_Unmarshal_int64 (fun m v => (m <= v)%Z) (numericMin (AInt64 t) values) values
  /\ picks json_Unmarshal_uint64 (fun m v => (m <= v)%Z)
       (numericMin (AUint64 t) values) values.
Proof.
  unfold picks. split.
  - rewrite numericMin_int64.
    pose proof (omap_range json_Unmarshal_int64 _ values json_Unmarshal_int64_range) as Hr.
    destruct (omap json_Unmarshal_int64 values) as [| v vs] eqn:E; [left; auto |].
    destruct (running_min_least (v :: vs) MaxInt64) as [Hin Hall];
      [discriminate | eapply Forall_impl; [exact Hr | cbn; lia] |].
    cbn zeta in Hin, Hall. right. eexists. split; [reflexivity |].
    split; [| split; [exact Hin | exact Hall]].
    apply json_Unmarshal_int64_num. exact (proj1 (List.Forall_forall _ _) Hr _ Hin).
  - rewrite numericMin_uint64.
    pose proof (omap_range json_Unmarshal_uint64 _ values json_Unmarshal_uint64_range) as Hr.
    destruct (omap json_Unmarshal_uint64 values) as [| v vs] eqn:E; [left; auto |].
    destruct (running_min_least (v :: vs) MaxUint64) as [Hin Hall];
      [discriminate | eapply Forall_impl; [exact Hr | cbn; lia] |].
    cbn zeta in Hin, Hall. right. eexists. split; [reflexivity |].
    split; [| split; [exact Hin | exact Hall]].
    apply json_Unmarshal_uint64_num. exact (proj1 (List.Forall_forall _ _) Hr _ Hin).
Qed.

Lemma sum_Z_Permutation (l l' : list Z) : Permutation l l' -> sum_Z l = sum_Z l'.
Proof.
  induction 1 as [| x l l' _ IH | x y l | l l' l'' _ IH1 _ IH2]; simpl in *; lia.
Qed.

Lemma running_max_Permutation (vs vs' : list Z) (init : Z) :
  Permutation vs vs' ->
  Forall (fun v => (init <= v)%Z) vs ->
  fold_left (fun max v => if (max <? v)%Z then v else max) vs init
  = fold_left (fun max v => if (max <? v)%Z then v else max) vs' init.
Proof.
  intros Hperm Hlow. destruct vs as [| v vs].
  - apply Permutation_nil in Hperm. subst. reflexivity.
  - assert (Hne' : vs' <> []).
    { intros ->. symmetry in Hperm. apply Permutation_nil in Hperm. discriminate. }
    assert (Hlow' : Forall (fun v => (init <= v)%Z) vs') by (rewrite <- Hperm; exact Hlow).
    destruct (running_max_greatest (v :: vs) init ltac:(discriminate) Hlow) as [Hin Hall].
    destruct (running_max_greatest vs' init Hne' Hlow') as [Hin' Hall'].
    cbn zeta in *.
    apply Z.le_antisymm.
    + apply (proj1 (List.Forall_forall _ _) Hall').
      eapply Permutation_in; [exact Hperm | exact Hin].
    + apply (proj1 (List.Forall_forall _ _) Hall).
      eapply Permutation_in; [symmetry; exact Hperm | exact Hin'].
Qed.

Lemma running_min_Permutation (vs vs' : list Z) (init : Z) :
  Permutation vs vs' ->
  Forall (fun v => (v <= init)%Z) vs ->
  fold_left (fun min v => if (v <? min)%Z then v else min) vs init
  = fold_left (fun min v => if (v <? min)%Z then v else min) vs' init.
Proof.
  intros Hperm Hup. destruct vs as [| v vs].
  - apply Permutation_nil in Hperm. subst. reflexivity.
  - assert (Hne' : vs' <> []).
    { intros ->. symmetry in Hperm. apply Permutation_nil in Hperm. discriminate. }
    assert (Hup' : Forall (fun v => (v <= init)%Z) vs') by (rewrite <- Hperm; exact Hup).
    destruct (running_min_least (v :: vs) init ltac:(discriminate) Hup) as [Hin Hall].
    destruct (running_min_least vs' init Hne' Hup') as [Hin' Hall'].
    cbn zeta in *.
    apply Z.le_antisymm.
    + apply (proj1 (List.Forall_forall _ _) Hall).
      eapply Permutation_in; [symmetry; exact Hperm | exact Hin'].
    + apply (proj1 (List.Forall_forall _ _) Hall').
      eapply Permutation_in; [exact Hperm | exact Hin].
Qed.

(** A closed form that depends on the decoded values through a function
    invariant under rearrangement is itself invariant. *)
Lemma closed_form_Permutation (decoded decoded' : list Z) (f : list Z -> Z) :
  Permutation decoded decoded' ->
  f decoded = f decoded' ->
  match decoded with
  | [] => nil_bytes
  | v :: vs => text (JNum (Marshal_int (f (v :: vs))))
  end
  = match decoded' with
    | [] => nil_bytes
    | v :: vs => text (JNum (Marshal_int (f (v :: vs))))
    end.
Proof.
  intros Hperm Ef. destruct decoded as [| v vs].
  - apply Permutation_nil in Hperm. subst. reflexivity.
  - destruct decoded' as [| v' vs'].
    + symmetry in Hperm. apply Permutation_nil in Hperm. discriminate.
    + rewrite Ef. reflexivity.
Qed.

(** X3: the order of the values does not matter to the integer reducers.
    The partials reach the combiner in the order of a map iteration; sum,
    maximum and minimum over [int64] and [uint64] give the same result
    for every rearrangement of the same values. *)
Theorem integer_reducers_any_order (values values' : list bytes) (t : Z) :
  Permutation values values' ->
  numericSum (AInt64 t) values = numericSum (AInt64 t) values'
  /\ numericSum (AUint64 t) values = numericSum (AUint64 t) values'
  /\ numericMax (AInt64 t) values = numericMax (AInt64 t) values'
  /\ numericMax (AUint64 t) values = numericMax (AUint64 t) values'
  /\ numericMin (AInt64 t) values = numericMin (AInt64 t) values'
  /\ numericMin (AUint64 t) values = numericMin (AUint64 t) values'.
Proof.
  intros Hperm.
  assert (Hi : Permutation (omap json_Unmarshal_int64 values)
                 (omap json_Unmarshal_int64 values')) by (rewrite Hperm; reflexivity).
  assert (Hu : Permutation (omap json_Unmarshal_uint64 values)
                 (omap json_Unmarshal_uint64 values')) by (rewrite Hperm; reflexivity).
  pose proof (omap_range json_Unmarshal_int64 _ values json_Unmarshal_int64_range) as Hri.
  pose proof (omap_range json_Unmarshal_uint64 _ values json_Unmarshal_uint64_range) as Hru.
  rewrite !numericSum_int64, !numericSum_uint64, !numericMax_int64, !numericMax_uint64,
    !numericMin_int64, !numericMin_uint64.
  repeat split.
  - apply (closed_form_Permutation _ _ (fun vs => wrap_int64 (sum_Z vs)) Hi).
    f_equal. apply sum_Z_Permutation, Hi.
  - apply (closed_form_Permutation _ _ (fun vs => wrap_uint64 (sum_Z vs)) Hu).
    f_equal. apply sum_Z_Permutation, Hu.
  - apply (closed_form_Permutation _ _
             (fun vs => fold_left (fun max v => if (max <? v)%Z then v else max) vs MinInt64)
             Hi).
    apply running_max_Permutation; [exact Hi |].
    eapply Forall_impl; [exact Hri | cbn; lia].
  - apply (closed_form_Permutation _ _
             (fun vs => fold_left (fun max v => if (max <? v)%Z then v else max) vs 0%Z) Hu).
    apply running_max_Permutation; [exact Hu |].
    eapply Forall_impl; [exact Hru | cbn; lia].
  - apply (closed_form_Permutation _ _
             (fun vs => fold_left (fun min v => if (v <? min)%Z then v else min) vs MaxInt64)
             Hi).
    apply running_min_Permutation; [exact Hi |].
    eapply Forall_impl; [exact Hri | cbn; lia].
  - apply (closed_form_Permutation _ _
             (fun vs => fold_left (fun min v => if (v <? min)%Z then v else min) vs MaxUint64)
             Hu).
    apply running_min_Permutation; [exact Hu |].
    eapply Forall_impl; [exact Hru | cbn; lia].
Qed.

Lemma integer_reducers_any_order_witness :
  Permutation [num 17; nil_bytes; num 25] [num 25; num 17; nil_bytes]
  /\ numericSum (AInt64 0) [num 17; nil_bytes; num 25]
     = numericSum (AInt64 0) [num 25; num 17; nil_bytes]
  /\ numericSum (AUint64 0) [num 17; nil_bytes; num 25]
     = numericSum (AUint64 0) [num 25; num 17; nil_bytes]
  /\ numericMax (AInt64 0) [num 17; nil_bytes; num 25]
     = numericMax (AInt64 0) [num 25; num 17; nil_bytes]
  /\ numericMax (AUint64 0) [num 17; nil_bytes; num 25]
     = numericMax (AUint64 0) [num 25; num 17; nil_bytes]
  /\ numericMin (AInt64 0) [num 17; nil_bytes; num 25]
     = numericMin (AInt64 0) [num 25; num 17; nil_bytes]
  /\ numericMin (AUint64 0) [num 17; nil_bytes; num 25]
     = numericMin (AUint64 0) [num 25; num 17; nil_bytes].
Proof.
  assert (Hperm : Permutation [num 17; nil_bytes; num 25] [num 25; num 17; nil_bytes]).
  { apply Permutation_sym, (Permutation_cons_app [num 17; nil_bytes] []).
    rewrite app_nil_r. reflexivity. }
  split; [exact Hperm |].
  exact (integer_reducers_any_order _ _ 0%Z Hperm).
Defined.

Lemma ParseInt_Marshal_int (z : Z) :
  (MinInt64 <= z <= MaxInt64)%Z -> ParseInt (Marshal_int z) = Some z.
Proof. intros Hz. exact (json_Unmarshal_int64_num z Hz). Qed.

Lemma ParseUint_Marshal_int (z : Z) :
  (0 <= z <= MaxUint64)%Z -> ParseUint (Marshal_int z) = Some z.
Proof. intros Hz. exact (json_Unmarshal_uint64_num z Hz). Qed.

Lemma sum_Z_app (l l' : list Z) : sum_Z (l ++ l') = (sum_Z l + sum_Z l')%Z.
Proof. induction l as [| z l IH]; simpl in *; lia. Qed.

(** X4: sums compose. Summing the sums of two lists gives the sum of the
    two lists together, wrap-around included; a nil partial sum (nothing
    decoded) is passed over like any scalar that does not decode. *)
Theorem numericSum_of_sums (a b : list bytes) (t : Z) :
  numericSum (AInt64 t) [numericSum (AInt64 t) a; numericSum (AInt64 t) b]
  = numericSum (AInt64 t) (a ++ b)%list
  /\ numericSum (AUint64 t) [numericSum (AUint64 t) a; numericSum (AUint64 t) b]
     = numericSum (AUint64 t) (a ++ b)%list.
Proof.
  split.
  - rewrite (numericSum_int64 t (a ++ b)), omap_app.
    rewrite (numericSum_int64 t [_; _]). cbn [omap list_omap].
    rewrite (numericSum_int64 t a), (numericSum_int64 t b).
    destruct (omap json_Unmarshal_int64 a) as [| x xs];
      destruct (omap json_Unmarshal_int64 b) as [| y ys];
      cbn [app json_Unmarshal_int64];
      rewrite ?ParseInt_Marshal_int by apply wrap_int64_range;
      rewrite ?app_nil_r; try reflexivity.
    + cbn [sum_Z fold_right]. rewrite Z.add_0_r, wrap_int64_id by apply wrap_int64_range.
      reflexivity.
    + cbn [sum_Z fold_right]. rewrite Z.add_0_r, wrap_int64_id by apply wrap_int64_range.
      reflexivity.
    + f_equal. f_equal. f_equal.
      change (x :: xs ++ y :: ys)%list with ((x :: xs) ++ (y :: ys))%list.
      rewrite sum_Z_app.
      change (sum_Z [wrap_int64 (sum_Z (x :: xs)); wrap_int64 (sum_Z (y :: ys))])
        with (wrap_int64 (sum_Z (x :: xs)) + (wrap_int64 (sum_Z (y :: ys)) + 0))%Z.
      rewrite Z.add_0_r, wrap_int64_add, Z.add_comm, wrap_int64_add.
      f_equal. lia.
  - rewrite (numericSum_uint64 t (a ++ b)), omap_app.
    rewrite (numericSum_uint64 t [_; _]). cbn [omap list_omap].
    rewrite (numericSum_uint64 t a), (numericSum_uint64 t b).
    destruct (omap json_Unmarshal_uint64 a) as [| x xs];
      destruct (omap json_Unmarshal_uint64 b) as [| y ys];
      cbn [app json_Unmarshal_uint64];
      rewrite ?ParseUint_Marshal_int by apply wrap_uint64_range;
      rewrite ?app_nil_r; try reflexivity.
    + cbn [sum_Z fold_right]. rewrite Z.add_0_r, wrap_uint64_id by apply wrap_uint64_range.
      reflexivity.
    + cbn [sum_Z fold_right]. rewrite Z.add_0_r, wrap_uint64_id by apply wrap_uint64_range.
      reflexivity.
    + f_equal. f_equal. f_equal.
      change (x :: xs ++ y :: ys)%list with ((x :: xs) ++ (y :: ys))%list.
      rewrite sum_Z_app.
      change (sum_Z [wrap_uint64 (sum_Z (x :: xs)); wrap_uint64 (sum_Z (y :: ys))])
        with (wrap_uint64 (sum_Z (x :: xs)) + (wrap_uint64 (sum_Z (y :: ys)) + 0))%Z.
      rewrite Z.add_0_r, wrap_uint64_add, Z.add_comm, wrap_uint64_add.
      f_equal. lia.
Qed.

(** ** The averages and the float extremes *)

Lemma avg_fold (wrap : Z -> Z) (vs : list Z) (a c : Z) :
  (forall a v, wrap (wrap a + v)%Z = wrap (a + v)%Z) ->
  fold_left (fun '(sum, count) v => (wrap (sum + v)%Z, wrap (count + 1)%Z)) vs (wrap a, wrap c)
  = (wrap (a + sum_Z vs)%Z, wrap (c + Z.of_nat (length vs))%Z).
Proof.
  intros Hwrap. revert a c. induction vs as [| v vs IH]; intros a c.
  - cbn [fold_left sum_Z fold_right length Z.of_nat]. rewrite !Z.add_0_r. reflexivity.
  - cbn [fold_left]. rewrite !Hwrap, IH. cbn [sum_Z fold_right length].
    rewrite Nat2Z.inj_succ, <- !Z.add_assoc, (Z.add_1_l (Z.of_nat (length vs))).
    reflexivity.
Qed.

Lemma length_omap_le {V : Type} (decode : bytes -> option V) (values : list bytes) :
  length (omap decode values) <= length values.
Proof.
  induction values as [| value values IH]; [reflexivity |].
  cbn [omap list_omap length]. destruct (decode value); cbn [length]; lia.
Qed.

(** X5: the integer averages. For a list of fewer than 2^63 values,
    [avgInt64] and [avgUint64] return nil when no value decodes, and
    otherwise the wrapped sum of the decoded values divided by their
    number, the quotient truncated toward zero. *)
Theorem numericAvg_integers (values : list bytes) (t : Z) :
  (Z.of_nat (length values) <= MaxInt64)%Z ->
  numericAvg (AInt64 t) values =
    match omap json_Unmarshal_int64 values with
    | [] => nil_bytes
    | vs => num (Z.quot (wrap_int64 (sum_Z vs)) (Z.of_nat (length vs)))
    end
  /\ numericAvg (AUint64 t) values =
       match omap json_Unmarshal_uint64 values with
       | [] => nil_bytes
       | vs => num (wrap_uint64 (sum_Z vs) / Z.of_nat (length vs))
       end.
Proof.
  intros Hlen. unfold numericAvg, MaxInt64 in *. split.
  - destruct (length values =? 0)%nat eqn:E.
    + rewrite (length_zero_omap _ _ E). reflexivity.
    + rewrite each_decoded_spec.
      pose proof (length_omap_le json_Unmarshal_int64 values) as Hle.
      rewrite (avg_fold wrap_int64 _ 0 0 wrap_int64_add).
      destruct (omap json_Unmarshal_int64 values) as [| v vs]; [reflexivity |].
      rewrite !Z.add_0_l.
      rewrite (wrap_int64_id (Z.of_nat (length (v :: vs))))
        by (unfold MinInt64, MaxInt64; lia).
      cbn [length decoded_some negb] in *.
      replace (Z.of_nat (S (length vs)) =? 0)%Z with false
        by (symmetry; apply Z.eqb_neq; lia).
      reflexivity.
  - destruct (length values =? 0)%nat eqn:E.
    + rewrite (length_zero_omap _ _ E). reflexivity.
    + rewrite each_decoded_spec.
      pose proof (length_omap_le json_Unmarshal_uint64 values) as Hle.
      rewrite (avg_fold wrap_uint64 _ 0 0 wrap_uint64_add).
      destruct (omap json_Unmarshal_uint64 values) as [| v vs]; [reflexivity |].
      rewrite !Z.add_0_l.
      rewrite (wrap_uint64_id (Z.of_nat (length (v :: vs))))
        by (unfold MaxUint64; lia).
      cbn [length decoded_some negb] in *.
      replace (Z.of_nat (S (length vs)) =? 0)%Z with false
        by (symmetry; apply Z.eqb_neq; lia).
      reflexivity.
Qed.

Lemma numericAvg_integers_witness :
  (Z.of_nat (length [num (-7); nil_bytes; num 0]) <= MaxInt64)%Z
  /\ numericAvg (AInt64 0) [num (-7); nil_bytes; num 0] =
       match omap json_Unmarshal_int64 [num (-7); nil_bytes; num 0] with
       | [] => nil_bytes
       | vs => num (Z.quot (wrap_int64 (sum_Z vs)) (Z.of_nat (length vs)))
       end
  /\ numericAvg (AUint64 0) [num (-7); nil_bytes; num 0] =
       match omap json_Unmarshal_uint64 [num (-7); nil_bytes; num 0] with
       | [] => nil_bytes
       | vs => num (wrap_uint64 (sum_Z vs) / Z.of_nat (length vs))
       end.
Proof.
  assert (Hlen : (Z.of_nat (length [num (-7); nil_bytes; num 0]) <= MaxInt64)%Z)
    by (vm_compute; discriminate).
  split; [exact Hlen |].
  exact (numericAvg_integers [num (-7); nil_bytes; num 0] 0%Z Hlen).
Defined.

(** The average of -7 and 0 is -3: the quotient is truncated toward zero;
    as [uint64] the -7 does not decode and the average is 0. *)
Example numericAvg_truncates :
  avgInt64 [num (-7); nil_bytes; num 0] = num (-3)
  /\ avgUint64 [num (-7); nil_bytes; num 0] = num 0.
Proof. split; reflexivity. Qed.

Lemma json_Unmarshal_float64_finite (value : bytes) (f : float64) :
  json_Unmarshal_float64 value = Some f -> is_finite f = true.
Proof.
  unfold json_Unmarshal_float64, ParseFloat.
  destruct value as [| d | raw]; try discriminate.
  destruct d as [| b | x | s | elements | members]; try discriminate.
  - intros E. injection E as <-. reflexivity.
  - destruct (is_finite _) eqn:Hf; [| discriminate]. intros E. injection E as <-. exact Hf.
Qed.

Lemma math_Max_finite (x y : float64) :
  is_finite x = true -> is_finite y = true -> math_Max x y = x \/ math_Max x y = y.
Proof.
  intros Hx Hy. unfold math_Max.
  destruct x, y; try discriminate; cbn [IsInf IsNaN orb];
    repeat match goal with
           | |- context [if ?c then _ else _] => destruct c
           end; auto.
Qed.

Lemma math_Min_finite (x y : float64) :
  is_finite x = true -> is_finite y = true -> math_Min x y = x \/ math_Min x y = y.
Proof.
  intros Hx Hy. unfold math_Min.
  destruct x, y; try discriminate; cbn [IsInf IsNaN orb];
    repeat match goal with
           | |- context [if ?c then _ else _] => destruct c
           end; auto.
Qed.

Lemma is_finite_not_NaN (f : float64) : is_finite f = true -> IsNaN f = false.
Proof. destruct f; [reflexivity | discriminate | discriminate | reflexivity]. Qed.

(** A running extreme seeded with NaN is one of the values. *)
Lemma running_float (op : float64 -> float64 -> float64) (vs : list float64) :
  (forall x y, is_finite x = true -> is_finite y = true -> op x y = x \/ op x y = y) ->
  Forall (fun v => is_finite v = true) vs ->
  vs <> [] ->
  In (fold_left (fun acc v => if IsNaN acc then v else op acc v) vs NaN) vs.
Proof.
  intros Hop Hfin Hne.
  assert (Hfrom : forall l acc,
             Forall (fun v => is_finite v = true) l -> is_finite acc = true ->
             In (fold_left (fun acc v => if IsNaN acc then v else op acc v) l acc)
                (acc :: l)).
  { induction l as [| v l IH]; intros acc Hl Hacc; [left; reflexivity |].
    inversion Hl as [| ? ? Hv Hl']; subst. cbn [fold_left].
    rewrite (is_finite_not_NaN acc Hacc).
    destruct (Hop acc v Hacc Hv) as [E | E]; rewrite E.
    - destruct (IH acc Hl' Hacc) as [<- | Hin]; [left; reflexivity | right; right; exact Hin].
    - right. apply (IH v Hl' Hv). }
  destruct vs as [| v vs]; [congruence |].
  inversion Hfin as [| ? ? Hv Hvs]; subst. cbn [fold_left IsNaN NaN].
  apply Hfrom; assumption.
Qed.

(** X6: the float extremes. [maxFloat64] and [minFloat64] return nil
    exactly when no value decodes; otherwise the result is the encoding
    of one of the decoded values, which is finite: unlike the sum, an
    extreme always has an encoding. *)
Theorem float_extreme_is_a_value (values : list bytes) (t : float64) :
  ((omap json_Unmarshal_float64 values = [] /\ numericMax (AFloat64 t) values = nil_bytes)
   \/ exists m x,
        In m (omap json_Unmarshal_float64 values)
        /\ Marshal_float64 m = Some x
        /\ numericMax (AFloat64 t) values = text (JNum x))
  /\ ((omap json_Unmarshal_float64 values = [] /\ numericMin (AFloat64 t) values = nil_bytes)
      \/ exists m x,
           In m (omap json_Unmarshal_float64 values)
           /\ Marshal_float64 m = Some x
           /\ numericMin (AFloat64 t) values = text (JNum x)).
Proof.
  pose proof (omap_range json_Unmarshal_float64 _ values json_Unmarshal_float64_finite) as Hfin.
  assert (Henc : forall m, In m (omap json_Unmarshal_float64 values) ->
                   exists x, Marshal_float64 m = Some x).
  { intros m Hm. pose proof (proj1 (List.Forall_forall _ _) Hfin m Hm) as Hf.
    destruct (Marshal_float64 m) as [x |] eqn:E; [eauto |].
    assert (Hnone : json_Marshal_float64 m = None)
      by (unfold json_Marshal_float64; rewrite E; reflexivity).
    apply json_Marshal_float64_None in Hnone. congruence. }
  split.
  - unfold numericMax. destruct (length values =? 0)%nat eqn:E.
    + left. split; [apply length_zero_omap, E | reflexivity].
    + rewrite each_decoded_spec.
      destruct (omap json_Unmarshal_float64 values) as [| v vs] eqn:Ev; [left; auto |].
      right. rewrite <- Ev in *.
      assert (Hin : In (fold_left (fun max v => if IsNaN max then v else math_Max max v)
                          (omap json_Unmarshal_float64 values) NaN)
                       (omap json_Unmarshal_float64 values)).
      { apply running_float; [apply math_Max_finite | exact Hfin | rewrite Ev; discriminate]. }
      destruct (Henc _ Hin) as [x Hx].
      eexists. exists x. split; [exact Hin |]. split; [exact Hx |].
      rewrite Ev at 1. cbn [decoded_some negb].
      unfold json_Marshal_float64. rewrite Hx. reflexivity.
  - unfold numericMin. destruct (length values =? 0)%nat eqn:E.
    + left. split; [apply length_zero_omap, E | reflexivity].
    + rewrite each_decoded_spec.
      destruct (omap json_Unmarshal_float64 values) as [| v vs] eqn:Ev; [left; auto |].
      right. rewrite <- Ev in *.
      assert (Hin : In (fold_left (fun min v => if IsNaN min then v else math_Min min v)
                          (omap json_Unmarshal_float64 values) NaN)
                       (omap json_Unmarshal_float64 values)).
      { apply running_float; [apply math_Min_finite | exact Hfin | rewrite Ev; discriminate]. }
      destruct (Henc _ Hin) as [x Hx].
      eexists. exists x. split; [exact Hin |]. split; [exact Hx |].
      rewrite Ev at 1. cbn [decoded_some negb].
      unfold json_Marshal_float64. rewrite Hx. reflexivity.
Qed.

(** ** The combiner on names and descriptions *)

Lemma collectNames_carries (respStats : list RespStat) (name : string) :
  name ∈ fst (collectNames respStats) <-> carriesName respStats name.
Proof.
  destruct (collectNames_spec respStats) as [_ Hel]. rewrite Hel. unfold carriesName.
  split; intros (resp & l & Hresp & Hl & Hn); exists resp, l;
    rewrite ?list_elem_of_In in *; auto.
Qed.

(** The names aggregate is a function of the set of names carried. *)
Lemma aggregateNames_same_names (a b : list RespStat) :
  (forall name, carriesName a name <-> carriesName b name) ->
  aggregateNames a = aggregateNames b.
Proof.
  intros Hsame. unfold aggregateNames.
  assert (Hperm : Permutation (fst (collectNames a)) (fst (collectNames b))).
  { apply NoDup_Permutation; try apply collectNames_spec.
    intros name. rewrite !collectNames_carries. apply Hsame. }
  assert (E : sort_Strings (fst (collectNames a)) = sort_Strings (fst (collectNames b))).
  { apply sort_Strings_unique; [| apply sort_Strings_Sorted].
    rewrite sort_Strings_Permutation. exact Hperm. }
  rewrite E. reflexivity.
Qed.

Lemma carriesName_single (names : list string) (name : string) :
  carriesName [onlyNames (namesOf names)] name <-> In name names.
Proof.
  unfold carriesName. split.
  - intros (resp & l & [<- | []] & Hl & Hn).
    rewrite decodedNames_namesOf in Hl. injection Hl as <-. exact Hn.
  - intros Hn. exists (onlyNames (namesOf names)), names.
    split; [left; reflexivity |]. split; [apply decodedNames_namesOf | exact Hn].
Qed.



(** X8: combining is idempotent on names. The aggregate of a names query,
    taken as the only partial of a second round, combines to itself. *)
Theorem aggregate_names_idempotent (timeout : Z) (filter : Filter)
    (respStats : list RespStat) (ret : RespStat) :
  filterFacet filter = FacetNames ->
  aggregateStatResponses (newReqStat timeout filter) respStats = Returns (Some ret) ->
  aggregateStatResponses (newReqStat timeout filter) [ret] = Returns (Some ret).
Proof.
  intros Hfacet. rewrite !(aggregate_names_case _ _ _ Hfacet).
  intros E. injection E as <-. f_equal.
  change (aggregateNames [onlyNames (namesOf (sort_Strings (fst (collectNames respStats))))]
          = aggregateNames respStats).
  apply aggregateNames_same_names. intros name.
  rewrite carriesName_single, <- collectNames_carries, <- list_elem_of_In.
  rewrite (sort_Strings_Permutation (fst (collectNames respStats))). reflexivity.
Qed.

Lemma aggregate_names_idempotent_witness :
  filterFacet (pipelineNames "p1") = FacetNames
  /\ aggregateStatResponses (newReqStat 1000 (pipelineNames "p1"))
       [onlyNames (namesOf ["a"; "c"]); onlyNames (namesOf ["b"; "a"])]
     = Returns (Some (onlyNames (namesOf ["a"; "b"; "c"])))
  /\ aggregateStatResponses (newReqStat 1000 (pipelineNames "p1"))
       [onlyNames (namesOf ["a"; "b"; "c"])]
     = Returns (Some (onlyNames (namesOf ["a"; "b"; "c"]))).
Proof.
  split; [reflexivity |]. split; [reflexivity |].
  exact (aggregate_names_idempotent 1000%Z (pipelineNames "p1")
           [onlyNames (namesOf ["a"; "c"]); onlyNames (namesOf ["b"; "a"])]
           (onlyNames (namesOf ["a"; "b"; "c"])) eq_refl eq_refl).
Defined.

Lemma aggregateDesc_Some (respStats : list RespStat) (ret : RespStat) :
  aggregateDesc respStats = Some ret ->
  exists resp, In resp respStats /\ is_Some (decodedDesc resp) /\ ret = onlyDesc (Desc resp).
Proof.
  induction respStats as [| resp rest IH]; [discriminate |].
  rewrite aggregateDesc_cons. destruct (decodedDesc resp) as [v |] eqn:E.
  - intros E'. injection E' as <-. exists resp. split; [left; reflexivity |]. eauto.
  - intros E'. destruct (IH E') as (r & Hin & Hr). exists r. split; [right; exact Hin | exact Hr].
Qed.

(** X9: the description aggregate is the description payload of one of
    the partials, byte for byte, with nothing else set; and combining is
    idempotent: the aggregate alone combines to itself. *)
Theorem aggregate_desc_verbatim (timeout : Z) (filter : Filter)
    (respStats : list RespStat) (ret : RespStat) :
  filterFacet filter = FacetDesc ->
  aggregateStatResponses (newReqStat timeout filter) respStats = Returns (Some ret) ->
  (exists resp, In resp respStats /\ ret = onlyDesc (Desc resp))
  /\ aggregateStatResponses (newReqStat timeout filter) [ret] = Returns (Some ret).
Proof.
  intros Hfacet. rewrite !(aggregate_desc_case _ _ _ Hfacet).
  intros E. injection E as E.
  destruct (aggregateDesc_Some _ _ E) as (resp & Hin & [v Hv] & ->).
  split; [eauto |]. f_equal. rewrite aggregateDesc_cons.
  unfold decodedDesc in *. cbn [Desc onlyDesc] in *.
  destruct (json_Unmarshal_ResultStatIndicatorDesc (Desc resp)) as [r |]; [| discriminate].
  destruct (any_is_nil (ResultDesc r)); [discriminate | reflexivity].
Qed.

Lemma aggregate_desc_verbatim_witness :
  filterFacet (pipelineDesc "p1" "i") = FacetDesc
  /\ aggregateStatResponses (newReqStat 1000 (pipelineDesc "p1" "i"))
       [onlyDesc nil_bytes; onlyDesc (descOf "hello")]
     = Returns (Some (onlyDesc (descOf "hello")))
  /\ (exists resp,
        In resp [onlyDesc nil_bytes; onlyDesc (descOf "hello")]
        /\ onlyDesc (descOf "hello") = onlyDesc (Desc resp))
  /\ aggregateStatResponses (newReqStat 1000 (pipelineDesc "p1" "i"))
       [onlyDesc (descOf "hello")]
     = Returns (Some (onlyDesc (descOf "hello"))).
Proof.
  split; [reflexivity |]. split; [reflexivity |].
  exact (aggregate_desc_verbatim 1000%Z (pipelineDesc "p1" "i")
           [onlyDesc nil_bytes; onlyDesc (descOf "hello")]
           (onlyDesc (descOf "hello")) eq_refl eq_refl).
Defined.

(** X10: a value query without its indicator name, had it reached the
    combiner, would not be aggregated: in the pipeline and the plugin
    scope the fall through the cases reads the indicator name through
    the nil filter of the next scope and panics; in the task scope the
    combiner returns nil. *)
Theorem aggregate_without_indicator_name (timeout : Z) (PipelineName PluginName : string)
    (respStats : list RespStat) :
  aggregateStatResponses
    (newReqStat timeout
       (OfPipelineIndicatorValue {| PipelineValue_PipelineName := PipelineName;
                                    PipelineValue_IndicatorName := "" |}))
    respStats = Panics
  /\ aggregateStatResponses
       (newReqStat timeout
          (OfPluginIndicatorValue {| PluginValue_PipelineName := PipelineName;
                                     PluginValue_PluginName := PluginName;
                                     PluginValue_IndicatorName := "" |}))
       respStats = Panics
  /\ aggregateStatResponses
       (newReqStat timeout
          (OfTaskIndicatorValue {| TaskValue_PipelineName := PipelineName;
                                   TaskValue_IndicatorName := "" |}))
       respStats = Returns None.
Proof. repeat split. Qed.


(** ** The local resolver *)

(** On a request with one filter the resolver is [statResult] on that
    filter, stored in the field of the filter's facet. *)
Lemma getLocalStatResp_single (gc : GatewayCluster) (timeout : Z) (filter : Filter) :
  getLocalStatResp gc (newReqStat timeout filter) =
    intoResp
      (match filterFacet filter with
       | FacetNames => onlyNames
       | FacetValue => onlyValue
       | FacetDesc => onlyDesc
       end)
      (statResult gc filter).
Proof. destruct filter; reflexivity. Qed.

(** What [json.Marshal] made is not empty. *)
Lemma marshalled_names (r : ResultStatIndicatorNames) (b : bytes) :
  marshalled (json_Marshal_ResultStatIndicatorNames r) = inl b -> noBytes b = false.
Proof. intros E. injection E as <-. reflexivity. Qed.

Lemma marshalled_value (r : ResultStatIndicatorValue) (b : bytes) :
  marshalled (json_Marshal_ResultStatIndicatorValue r) = inl b -> noBytes b = false.
Proof.
  unfold json_Marshal_ResultStatIndicatorValue.
  destruct (encode_ResultStatIndicatorValue r); [| discriminate].
  intros E. injection E as <-. reflexivity.
Qed.

Lemma marshalled_desc (r : ResultStatIndicatorDesc) (b : bytes) :
  marshalled (json_Marshal_ResultStatIndicatorDesc r) = inl b -> noBytes b = false.
Proof.
  unfold json_Marshal_ResultStatIndicatorDesc.
  destruct (encode_any (ResultDesc r)); [| discriminate].
  intros E. injection E as <-. reflexivity.
Qed.

Lemma statResult_not_empty (gc : GatewayCluster) (filter : Filter) (b : bytes) :
  statResult gc filter = inl b -> noBytes b = false.
Proof.
  destruct filter as [f | f | f | f | f | f | f | f | f]; cbn [statResult];
    match goal with
    | |- context [StatRegistry_GetPipelineStatistics gc ?n] =>
        destruct (StatRegistry_GetPipelineStatistics gc n) as [stat |]; [| discriminate]
    end;
    try match goal with
        | |- context [match ?r with inl _ => _ | inr _ => _ end] =>
            destruct r; [| discriminate]
        end;
    first [apply marshalled_names | apply marshalled_value | apply marshalled_desc].
Qed.

(** The description the registry gives is a string: marshalled and read
    back it is that string, which is not nil. *)
Lemma statResult_desc (gc : GatewayCluster) (filter : Filter) (b : bytes) :
  filterFacet filter = FacetDesc ->
  statResult gc filter = inl b ->
  exists d, b = descOf d.
Proof.
  destruct filter as [f | f | f | f | f | f | f | f | f]; intros Hfacet;
    try discriminate Hfacet; cbn [statResult];
    match goal with
    | |- context [StatRegistry_GetPipelineStatistics gc ?n] =>
        destruct (StatRegistry_GetPipelineStatistics gc n) as [stat |]; [| discriminate]
    end;
    match goal with
    | |- context [match ?r with inl _ => _ | inr _ => _ end] =>
        destruct r as [d |]; [| discriminate]
    end;
    intros E; exists d; cbn in E; injection E as <-; reflexivity.
Qed.

Lemma aggregateDesc_descOf (d : string) (peers : list RespStat) :
  aggregateDesc (onlyDesc (descOf d) :: peers) = Some (onlyDesc (descOf d)).
Proof. reflexivity. Qed.

(** X11: a pipeline the registry does not know. Whatever the filter, the
    local resolver fails with [PipelineStatNotFoundError] and a message
    that names the pipeline. *)
Theorem getLocalStatResp_not_found (gc : GatewayCluster) (timeout : Z) (filter : Filter) :
  StatRegistry_GetPipelineStatistics gc (filterPipelineName filter) = None ->
  getLocalStatResp gc (newReqStat timeout filter) =
    inr ("pipeline " ++ filterPipelineName filter ++ " statistics not found",
         PipelineStatNotFoundError).
Proof.
  intros Hnone. rewrite getLocalStatResp_single.
  destruct filter; cbn [filterPipelineName statResult] in *; rewrite Hnone; reflexivity.
Qed.

Lemma getLocalStatResp_not_found_witness :
  getLocalStatResp sampleCluster (newReqStat 1000 (taskValue "p9" "i")) =
    inr ("pipeline p9 statistics not found", PipelineStatNotFoundError).
Proof.
  exact (getLocalStatResp_not_found sampleCluster 1000%Z (taskValue "p9" "i") eq_refl).
Defined.

(** X12: the local names partial. For a names filter on a pipeline the
    registry knows, the resolver succeeds, and the names of its partial
    decode to the registry's names for the filter's scope in increasing
    order. *)
Theorem getLocalStatResp_names (gc : GatewayCluster) (timeout : Z) (filter : Filter)
    (stat : PipelineStatistics) :
  filterFacet filter = FacetNames ->
  StatRegistry_GetPipelineStatistics gc (filterPipelineName filter) = Some stat ->
  exists resp names,
    getLocalStatResp gc (newReqStat timeout filter) = inl resp
    /\ decodedNames resp = Some names
    /\ Sorted string_le names
    /\ Permutation names (registryNames stat filter).
Proof.
  intros Hfacet Hstat.
  exists (onlyNames (namesOf (sort_Strings (registryNames stat filter)))),
         (sort_Strings (registryNames stat filter)).
  split; [| split; [apply decodedNames_namesOf |
                    split; [apply sort_Strings_Sorted | apply sort_Strings_Permutation]]].
  rewrite getLocalStatResp_single.
  destruct filter; try discriminate Hfacet;
    cbn [filterPipelineName statResult filterFacet registryNames] in *;
    rewrite Hstat; reflexivity.
Qed.

Lemma getLocalStatResp_names_witness :
  exists resp names,
    getLocalStatResp sampleCluster (newReqStat 1000 (pipelineNames "p1")) = inl resp
    /\ decodedNames resp = Some names
    /\ Sorted string_le names
    /\ Permutation names ["b"; "a"].
Proof.
  exact (getLocalStatResp_names sampleCluster 1000%Z (pipelineNames "p1") sampleStat
           eq_refl eq_refl).
Defined.

(** X13: what a successful local partial looks like. It carries no
    error, only the field of the filter's facet is set, and that field is
    never empty: it passes the test [issueStat] applies to the answer of
    the member it asked. *)
Theorem getLocalStatResp_facet (gc : GatewayCluster) (timeout : Z) (filter : Filter)
    (resp : RespStat) :
  getLocalStatResp gc (newReqStat timeout filter) = inl resp ->
  Err resp = None
  /\ noBytes (facetOf filter resp) = false
  /\ resp = match filterFacet filter with
            | FacetNames => onlyNames (facetOf filter resp)
            | FacetValue => onlyValue (facetOf filter resp)
            | FacetDesc => onlyDesc (facetOf filter resp)
            end.
Proof.
  rewrite getLocalStatResp_single.
  destruct (statResult gc filter) as [b | failure] eqn:E; [| discriminate].
  apply statResult_not_empty in E.
  intros E'. cbn [intoResp] in E'. injection E' as <-.
  destruct filter; cbn [filterFacet facetOf onlyNames onlyValue onlyDesc Names Value Desc Err];
    auto.
Qed.

Lemma getLocalStatResp_facet_witness :
  let filter := pipelineValue "p1" "EXECUTION_COUNT_ALL" in
  let resp := onlyValue (valueOf (JNum (Marshal_int 17))) in
  Err resp = None
  /\ noBytes (facetOf filter resp) = false
  /\ resp = onlyValue (facetOf filter resp).
Proof.
  exact (getLocalStatResp_facet sampleCluster 1000%Z
           (pipelineValue "p1" "EXECUTION_COUNT_ALL")
           (onlyValue (valueOf (JNum (Marshal_int 17)))) eq_refl).
Defined.

(** X14: on a description query the entry member's own description is
    the aggregate. The local partial heads the list the combiner reads,
    and what the registry gave is a string, which is never nil: whatever
    the other members answered, and in whatever order the response book
    is walked, the combiner returns the local partial. *)
Theorem local_description_wins (gc : GatewayCluster) (timeout : Z) (filter : Filter)
    (localResp : RespStat) (peers : list RespStat) :
  filterFacet filter = FacetDesc ->
  getLocalStatResp gc (newReqStat timeout filter) = inl localResp ->
  aggregateStatResponses (newReqStat timeout filter) (localResp :: peers)
  = Returns (Some localResp).
Proof.
  intros Hfacet Hlocal. rewrite aggregate_desc_case by exact Hfacet.
  rewrite getLocalStatResp_single, Hfacet in Hlocal.
  destruct (statResult gc filter) as [b | failure] eqn:E; [| discriminate].
  destruct (statResult_desc gc filter b Hfacet E) as [d ->].
  cbn [intoResp] in Hlocal. injection Hlocal as <-.
  rewrite aggregateDesc_descOf. reflexivity.
Qed.

Lemma local_description_wins_witness :
  aggregateStatResponses (newReqStat 1000 (pipelineDesc "p1" "i"))
    [onlyDesc (descOf ""); onlyDesc (descOf "hello")]
  = Returns (Some (onlyDesc (descOf ""))).
Proof.
  exact (local_description_wins sampleCluster 1000%Z (pipelineDesc "p1" "i")
           (onlyDesc (descOf "")) [onlyDesc (descOf "hello")] eq_refl eq_refl).
Defined.

(** ** Requests with one filter and with several *)

Section Requests.
Context `{Env}.

Lemma checkSelectors_passes (timeout : Z) (filter : Filter) :
  checkSelectors (newReqStat timeout filter) = None <-> ~ In "" (requiredSelectors filter).
Proof.
  split.
  - intros E Hin.
    destruct (checkSelectors_fails _ (MissingSelector timeout filter Hin)) as [msg E'].
    congruence.
  - intros Hn.
    destruct filter as [f | f | f | f | f | f | f | f | f]; destruct f;
      cbn [requiredSelectors In] in Hn; cbn -[emptyString]; split_selectors;
      repeat match goal with
             | E : emptyString _ = true |- _ => apply emptyString_spec in E; subst
             end;
      first [reflexivity | exfalso; apply Hn; auto 6].
Qed.

(** X15: the requests validation lets through. A payload that unpacks
    to a request with one filter is accepted, and handed on unchanged,
    exactly when none of the selectors the filter requires is empty. *)
Theorem unpackReqStat_accepts (payload : list byte) (timeout : Z) (filter : Filter) :
  Unpack_ReqStat payload = inl (newReqStat timeout filter) ->
  unpackReqStat payload = inl (newReqStat timeout filter)
  <-> ~ In "" (requiredSelectors filter).
Proof.
  intros Hunpack. rewrite <- checkSelectors_passes with (timeout := timeout).
  unfold unpackReqStat. rewrite Hunpack.
  destruct (checkSelectors (newReqStat timeout filter)) as [failure |].
  - split; discriminate.
  - split; reflexivity.
Qed.

(** X16: a request with more than one filter. Validation and the local
    resolver follow the first filter set in the order of the structure,
    the combiner any names filter first: a request that carries a
    pipeline value filter and a task names filter is validated on the
    value filter alone, resolved locally to a value, and combined as a
    names query. *)
Theorem mixed_filters (gc : GatewayCluster) (payload : list byte) (reqStat : ReqStat)
    (value : FilterPipelineIndicatorValue) (names : FilterTaskIndicatorNames)
    (respStats : list RespStat) :
  Unpack_ReqStat payload = inl reqStat ->
  ReqStat_FilterPipelineIndicatorNames reqStat = None ->
  ReqStat_FilterPipelineIndicatorValue reqStat = Some value ->
  ReqStat_FilterTaskIndicatorNames reqStat = Some names ->
  PipelineValue_PipelineName value <> "" ->
  PipelineValue_IndicatorName value <> "" ->
  unpackReqStat payload = inl reqStat
  /\ getLocalStatResp gc reqStat
     = intoResp onlyValue (statResult gc (OfPipelineIndicatorValue value))
  /\ aggregateStatResponses reqStat respStats = Returns (aggregateNames respStats).
Proof.
  intros Hunpack Hnames Hvalue Htask Hp Hi.
  split; [| split].
  - unfold unpackReqStat, checkSelectors. rewrite Hunpack, Hnames, Hvalue.
    destruct (emptyString (PipelineValue_PipelineName value)) eqn:E1;
      [apply emptyString_spec in E1; contradiction |].
    destruct (emptyString (PipelineValue_IndicatorName value)) eqn:E2;
      [apply emptyString_spec in E2; contradiction |].
    reflexivity.
  - unfold getLocalStatResp. rewrite Hnames, Hvalue. reflexivity.
  - unfold aggregateStatResponses. rewrite Hnames, Htask.
    destruct (ReqStat_FilterPluginIndicatorNames reqStat); reflexivity.
Qed.

(** ** The entry handler *)

Lemma respondStat_no_panic (req : RequestEvent) (resp : option RespStat) :
  Forall (fun e => e <> Panic) (respondStat req resp).
Proof.
  unfold respondStat. destruct (RequestPayload req) as [| header rest]; [constructor |].
  destruct (PackWithHeader_RespStat resp header); repeat constructor. discriminate.
Qed.

(** X18: the entry handler never panics. The combiner dereferences the
    value filter of the next scope when an indicator name is empty;
    validation refuses such requests before they reach it, so no run of
    the handler ends in a panic, as long as [respondRetrieveErr] itself
    does not. *)
Theorem handleStat_no_panic (gc : GatewayCluster) (req : RequestEvent) :
  (forall r typ msg, Forall (fun e => e <> Panic) (respondRetrieveErr r typ msg)) ->
  Forall (fun e => e <> Panic) (handleStat gc req).
Proof.
  intros Hretrieve. unfold handleStat.
  destruct (RequestPayload req) as [| header body] eqn:Hp; [constructor |].
  destruct (unpackReqStat body) as [reqStat | [err errType]] eqn:Hu;
    [| apply respondStat_no_panic].
  destruct (getLocalStatResp gc reqStat) as [localResp | [err errType]];
    [| apply respondStat_no_panic].
  cbv zeta. constructor; [discriminate |].
  match goal with
  | |- context [cluster_Request gc ?n ?p ?q] =>
      destruct (cluster_Request gc n p q) as [future | err]; [| apply Hretrieve]
  end.
  apply unpackReqStat_valid in Hu. destruct Hu as [_ Hvalid].
  match goal with
  | |- context [aggregateStatResponses reqStat ?l] =>
      destruct (aggregate_returns_when_valid reqStat l Hvalid) as [ret ->]
  end.
  destruct (notNil ret); [apply Hretrieve | apply respondStat_no_panic].
Qed.

(** X19: the partials the entry handler keeps from the response book.
    Each one carries no error and is what the payload of some entry of
    the book unpacks to, its first byte left aside. *)
Theorem validResps_sound (book : list (string * list byte)) :
  Forall
    (fun resp =>
       Err resp = None
       /\ exists memberName header body,
            In (memberName, header :: body) book /\ Unpack_RespStat body = inl resp)
    (validResps book).
Proof.
  induction book as [| [memberName payload] rest IH]; [constructor |].
  assert (Hrest :
    Forall
      (fun resp =>
         Err resp = None
         /\ exists memberName' header body,
              In (memberName', header :: body) ((memberName, payload) :: rest)
              /\ Unpack_RespStat body = inl resp)
      (validResps rest)).
  { apply (Forall_impl _ _ _ IH). 
    intros resp [Herr (m & h & b & Hin & Hu)].
    split; [exact Herr |]. exists m, h, b. split; [right; exact Hin | exact Hu]. }
  cbn [validResps]. destruct payload as [| header body]; [exact Hrest |].
  destruct (Unpack_RespStat body) as [resp | err] eqn:Hu; [| exact Hrest].
  destruct (Err resp) eqn:Herr; cbn [notNil]; [exact Hrest |].
  constructor; [| exact Hrest].
  split; [exact Herr |]. exists memberName, header, body.
  split; [left; reflexivity | exact Hu].
Qed.

(** X20: an entry of the response book that is passed over (a member
    that did not answer, a payload that does not unpack, a partial that
    carries an error) leaves the list of valid partials as it is without
    the entry. *)
Theorem validResps_passed_over (before after : list (string * list byte))
    (memberName : string) (payload : list byte) :
  passedOver payload ->
  validResps (before ++ (memberName, payload) :: after)%list
  = validResps (before ++ after)%list.
Proof.
  intros Hpassed.
  induction before as [| [m p] before IH].
  - cbn [app validResps]. unfold passedOver in Hpassed.
    destruct payload as [| header body]; [reflexivity |].
    destruct (Unpack_RespStat body) as [resp | err]; [| reflexivity].
    destruct (Err resp); [reflexivity | contradiction].
  - cbn [app validResps]. rewrite IH. reflexivity.
Qed.

End Requests.

Lemma unpackReqStat_accepts_witness :
  unpackReqStat [x01] = inl (newReqStat 1000 (pipelineNames "p1"))
  <-> ~ In "" (requiredSelectors (pipelineNames "p1")).
Proof.
  exact (unpackReqStat_accepts [x01] 1000%Z (pipelineNames "p1") eq_refl).
Defined.

Lemma mixed_filters_witness :
  @unpackReqStat twoFiltersEnv [x01] = inl twoFilters
  /\ getLocalStatResp sampleCluster twoFilters
     = inl (onlyValue (valueOf (JNum (Marshal_int 17))))
  /\ aggregateStatResponses twoFilters [onlyValue (valueOf (JNum (Marshal_int 17)))]
     = Returns (Some (onlyNames (namesOf []))).
Proof.
  exact (@mixed_filters twoFiltersEnv sampleCluster [x01] twoFilters
           {| PipelineValue_PipelineName := "p1";
              PipelineValue_IndicatorName := "EXECUTION_COUNT_ALL" |}
           {| TaskNames_PipelineName := "" |}
           [onlyValue (valueOf (JNum (Marshal_int 17)))]
           eq_refl eq_refl eq_refl eq_refl
           ltac:(discriminate) ltac:(discriminate)).
Defined.

Lemma handleStat_no_panic_witness :
  Forall (fun e => e <> Panic) (handleStat sampleCluster (sampleRequest [x0a; x04])).
Proof.
  apply (handleStat_no_panic sampleCluster (sampleRequest [x0a; x04])).
  intros r typ msg. repeat constructor. discriminate.
Defined.

Lemma validResps_passed_over_witness :
  validResps ([("n2", [x0b; x01])] ++ ("n3", []) :: [])%list
  = validResps ([("n2", [x0b; x01])] ++ [])%list.
Proof.
  exact (validResps_passed_over [("n2", [x0b; x01])] [] "n3" [] I).
Defined.

(** ** The member asked and the caller's side *)

Section Caller.
Context `{Env}.

(** The member chosen, if any, is one of the snapshot, and there is one
    exactly when some member of the group is alive. *)
Lemma chooseMember_outcome (gc : GatewayCluster) (rv : RangeVar) (rand_Int : nat)
    (group : string) :
  match chooseMemberToAggregateStat gc rv rand_Int group with
  | Panics => False
  | Returns (inr err) =>
      List.filter (inGroupAlive group) (cluster_Members gc) = []
      /\ err = "none of members is alive to aggregate statistics"
  | Returns (inl member) =>
      List.filter (inGroupAlive group) (cluster_Members gc) <> []
      /\ In member (cluster_Members gc)
  end.
Proof.
  destruct rv.
  - rewrite chooseMember_PerLoop.
    destruct (List.filter (inGroupAlive group) (cluster_Members gc)) as [| a alive] eqn:Ea;
      [split; reflexivity |].
    destruct (last (cluster_Members gc)) as [member |] eqn:El.
    + split; [discriminate |].
      apply last_Some in El. destruct El as [l' ->].
      apply in_or_app. right. left. reflexivity.
    + apply last_None in El. rewrite El in Ea. discriminate Ea.
  - rewrite chooseMember_PerIteration.
    destruct (List.filter (aliveReadMember group) (cluster_Members gc)) as [| r rs] eqn:Er.
    + destruct (List.filter (aliveWriteMember group) (cluster_Members gc)) as [| w ws] eqn:Ew.
      * split; [apply filter_read_write; assumption | reflexivity].
      * split.
        -- intros Ea. destruct (filter_alive_read_write _ _ Ea) as [_ Ew'].
           rewrite Ew' in Ew. discriminate Ew.
        -- assert (Hsub : forall m, In m (w :: ws) -> In m (cluster_Members gc)).
           { intros m Hm. rewrite <- Ew in Hm. apply filter_In in Hm. exact (proj1 Hm). }
           apply Hsub, nth_In, Nat.mod_upper_bound. discriminate.
    + split.
      * intros Ea. destruct (filter_alive_read_write _ _ Ea) as [Er' _].
        rewrite Er' in Er. discriminate Er.
      * assert (Hsub : forall m, In m (r :: rs) -> In m (cluster_Members gc)).
           { intros m Hm. rewrite <- Er in Hm. apply filter_In in Hm. exact (proj1 Hm). }
           apply Hsub, nth_In, Nat.mod_upper_bound. discriminate.
Qed.

(** X21: choosing the member never panics, under either reading of the
    loop variable: the index is within the slice and the pointer leads to
    a member. It fails exactly when no member of the group is alive, and
    what it returns otherwise is a member of the snapshot. *)
Theorem chooseMember_fails_iff (gc : GatewayCluster) (rv : RangeVar) (rand_Int : nat)
    (group : string) :
  (List.filter (inGroupAlive group) (cluster_Members gc) = []
   /\ chooseMemberToAggregateStat gc rv rand_Int group
      = Returns (inr "none of members is alive to aggregate statistics"))
  \/ (List.filter (inGroupAlive group) (cluster_Members gc) <> []
      /\ exists member,
           chooseMemberToAggregateStat gc rv rand_Int group = Returns (inl member)
           /\ In member (cluster_Members gc)).
Proof.
  pose proof (chooseMember_outcome gc rv rand_Int group) as Hout.
  destruct (chooseMemberToAggregateStat gc rv rand_Int group) as [[member | err] |];
    [right | left | contradiction].
  - destruct Hout as [Hne Hin]. split; [exact Hne |]. exists member. split; [reflexivity | exact Hin].
  - destruct Hout as [Hnone ->]. split; [exact Hnone | reflexivity].
Qed.

(** X23: what the caller gets when [issueStat] succeeds. The payload is
    not empty; it is the field of the filter's facet in the answer of the
    member asked, which carries no error; and exactly one request went
    out, under the caller's request name and timeout, to one member of
    the snapshot. *)
Theorem issueStat_returns_payload (gc : GatewayCluster) (rv : RangeVar) (rand_Int : nat)
    (group : string) (timeout : Z) (requestName : string) (filter : Filter) (ret : bytes) :
  snd (issueStat gc rv rand_Int group timeout requestName filter) = Returns (inl ret) ->
  noBytes ret = false
  /\ (exists requestPayload requestParam target,
        fst (issueStat gc rv rand_Int group timeout requestName filter)
        = [Request requestName requestPayload requestParam]
        /\ PackWithHeader_ReqStat (newReqStat timeout filter) statMessage = inl requestPayload
        /\ In target (cluster_Members gc)
        /\ TargetNodeNames requestParam = [NodeName target]
        /\ RequestParam_Timeout requestParam = timeout
        /\ exists memberResp rest header body resp,
             cluster_Request gc requestName requestPayload requestParam
             = inl (memberResp :: rest)
             /\ Payload memberResp = header :: body
             /\ Unpack_RespStat body = inl resp
             /\ Err resp = None
             /\ ret = facetOf filter resp).
Proof.
  unfold issueStat.
  destruct (PackWithHeader_ReqStat (newReqStat timeout filter) statMessage)
    as [requestPayload | err]; [| discriminate].
  pose proof (chooseMember_outcome gc rv rand_Int group) as Hout.
  destruct (chooseMemberToAggregateStat gc rv rand_Int group) as [[target | err] |];
    [| discriminate | discriminate].
  destruct Hout as [_ Hin]. cbv zeta.
  match goal with
  | |- context [cluster_Request gc requestName requestPayload ?q] =>
      set (requestParam := q);
      destruct (cluster_Request gc requestName requestPayload requestParam)
        as [future | err] eqn:Hr; [| discriminate]
  end.
  destruct (stopChan gc); [discriminate |].
  destruct future as [| memberResp rest]; [discriminate |].
  destruct (Payload memberResp) as [| header body] eqn:Hp; [discriminate |].
  destruct (Unpack_RespStat body) as [resp | err] eqn:Hu; [| discriminate].
  destruct (Err resp) eqn:He; [discriminate |].
  destruct (noBytes (facetOf filter resp)) eqn:Hn; [discriminate |].
  cbn [fst snd]. intros E. injection E as <-.
  split; [exact Hn |].
  exists requestPayload, requestParam, target.
  repeat split; try reflexivity; try assumption.
  exists memberResp, rest, header, body, resp. repeat split; assumption.
Qed.

(** X24: the response book the entry handler starts from holds the
    members it asked, each with no payload yet, and nobody else. *)
Theorem newRespBook_lookup (requestMemberNames : list string) (memberName : string) :
  newRespBook requestMemberNames !! memberName
  = if decide (memberName ∈ requestMemberNames) then Some [] else None.
Proof.
  unfold newRespBook.
  assert (Hfold : forall (book : gmap string (list byte)),
    fold_left (fun book memberName => <[memberName := []]> book) requestMemberNames book
      !! memberName
    = if decide (memberName ∈ requestMemberNames) then Some [] else book !! memberName).
  { induction requestMemberNames as [| name names IH]; intros book.
    - cbn [fold_left]. destruct (decide (memberName ∈ [])) as [Hin | _]; [| reflexivity].
      apply elem_of_nil in Hin. contradiction.
    - cbn [fold_left]. rewrite IH.
      destruct (decide (memberName ∈ names)) as [Hin | Hnin].
      + destruct (decide (memberName ∈ name :: names)) as [_ | Hn]; [reflexivity |].
        exfalso. apply Hn. right. exact Hin.
      + destruct (decide (memberName = name)) as [-> | Hne].
        * rewrite lookup_insert_eq.
          destruct (decide (name ∈ name :: names)) as [_ | Hn]; [reflexivity |].
          exfalso. apply Hn. left.
        * rewrite lookup_insert_ne by congruence.
          destruct (decide (memberName ∈ name :: names)) as [Hin | _]; [| reflexivity].
          apply elem_of_cons in Hin. destruct Hin as [E | Hin]; contradiction. }
  rewrite Hfold. destruct (decide (memberName ∈ requestMemberNames)); reflexivity.
Qed.

End Caller.

Lemma issueStat_returns_payload_witness :
  noBytes (namesOf ["a"; "c"]) = false
  /\ (exists requestPayload requestParam target,
        fst (issueStat sampleCluster PerLoop 0 "g" 1000 "stat" (pipelineNames "p1"))
        = [Request "stat" requestPayload requestParam]
        /\ PackWithHeader_ReqStat (newReqStat 1000 (pipelineNames "p1")) statMessage
           = inl requestPayload
        /\ In target (cluster_Members sampleCluster)
        /\ TargetNodeNames requestParam = [NodeName target]
        /\ RequestParam_Timeout requestParam = 1000%Z
        /\ exists memberResp rest header body resp,
             cluster_Request sampleCluster "stat" requestPayload requestParam
             = inl (memberResp :: rest)
             /\ Payload memberResp = header :: body
             /\ Unpack_RespStat body = inl resp
             /\ Err resp = None
             /\ namesOf ["a"; "c"] = facetOf (pipelineNames "p1") resp).
Proof.
  apply (issueStat_returns_payload sampleCluster PerLoop 0 "g" 1000%Z "stat"
           (pipelineNames "p1") (namesOf ["a"; "c"])).
  vm_compute. reflexivity.
Defined.

(** The sample cluster without a living member in group [h]. *)
Lemma issueStat_no_alive_member_witness :
  fst (issueStat sampleCluster PerLoop 0 "h" 1000 "stat" (pipelineNames "p1")) = []
  /\ exists msg,
       snd (issueStat sampleCluster PerLoop 0 "h" 1000 "stat" (pipelineNames "p1"))
       = Returns (inr (newClusterError msg InternalServerError)).
Proof.
  apply (issueStat_no_alive_member sampleCluster PerLoop 0 "h" 1000%Z "stat"
           (pipelineNames "p1")).
  vm_compute. reflexivity.
Defined.

Lemma handleStat_requests_witness :
  exists requestParam rest,
    handleStat sampleCluster (sampleRequest [x0a; x01]) =
      Request "stat_relay" [x0b; x01] requestParam :: rest
    /\ TargetNodeNames requestParam = ["n2"; "n3"]
    /\ RequestParam_Timeout requestParam = 1000%Z.
Proof.
  exact (handleStat_requests sampleCluster (sampleRequest [x0a; x01]) x0a [x01]
           (newReqStat 1000 (pipelineNames "p1")) (onlyNames (namesOf ["a"; "b"]))
           eq_refl eq_refl eq_refl).
Defined.
